(** * Two-stage retrieval: a shallow embedding of [scripts/two_stage_search.py]

    The development follows the Python class [TwoStageSearch]: loading of the
    three artifacts ([_load]), text resolution ([_get_text_by_index]), and the
    query operation [search] (grouping of chunk hits by document, document
    scoring, ranking, and assembly of the context under a character budget).
    It then follows the caller of [search], [scripts/fair_benchmark.py]:
    [load_questions], [judge_answer] and the question loop and metrics of
    [run_benchmark].

    Conventions.
    - Python [int] is [Z]; [len] of a string or list is a [Z].
    - Python [str] is [string]; [len] counts characters.
    - Python [float] is IEEE binary64, i.e. Rocq's primitive [float].  The
      results of [n ** 0.5] and of [sum] over floats depend on the C
      library and on the release of the interpreter; they are taken from a
      [Platform], and the properties hold on every platform unless they
      say otherwise.
    - [sorted] and [list.sort] are a stable insertion sort that compares
      keys with [<]; on keys without NaN every stable sort gives this
      result.
    - The [dict] of chunks per document is insertion ordered, so it is an
      association list.
    - A raised exception is [None]. *)

From Stdlib Require Import ZArith List String Ascii Bool Lia Permutation Sorted.
From Stdlib Require Import Floats Uint63.
Import ListNotations.

Local Open Scope string_scope.
Local Open Scope list_scope.
Local Open Scope Z_scope.

(** ** Strings *)

(** The one-character string ["\n"]. *)
Definition nl : string := String (ascii_of_nat 10) EmptyString.

(** Python's [len] on strings. *)
Definition len (s : string) : Z := Z.of_nat (String.length s).

(** Python's [sep.join(parts)]. *)
Definition join (sep : string) (parts : list string) : string :=
  String.concat sep parts.

(** Truthiness of a string: [if s:] holds when [s] is not empty. *)
Definition truthy (s : string) : bool :=
  match s with
  | EmptyString => false
  | String _ _ => true
  end.

(** A value that is a [str] or [None]: a field of a CSV row, which
    [csv.DictReader] sets to [None] when the row is too short to have it,
    and with it a question and the query made from it. *)
Inductive pystr :=
| PyNone
| PyStr (s : string).

Coercion PyStr : string >-> pystr.

(** ** Data *)

(** An entry of the positional metadata table. *)
Record Meta := mkMeta {
  meta_doc_id : string;
  meta_chunk_index : Z
}.

(** A chunk hit as stored in [doc_chunks]. *)
Record Chunk := mkChunk {
  chunk_index : Z;
  faiss_index : Z;
  score : float
}.

(** An entry of [doc_scores]. *)
Record DocScore := mkDocScore {
  doc_id : string;
  doc_score : float;
  matching_chunks : list Chunk
}.

(** The entries of ["document_scores"] in the returned dict. *)
Record ScoreSummary := mkScoreSummary {
  sum_doc_id : string;
  sum_score : float;
  num_matching_chunks : Z
}.

(** The dict returned by [search]. *)
Record SearchResult := mkSearchResult {
  context : string;
  top_documents : list string;
  document_scores : list ScoreSummary;
  context_chars : Z
}.

(** The vector index: its size and its nearest-neighbour search.  The
    search oracle stands for the embedding call followed by
    [index.search(query_emb, top_k_chunks)]; it yields the pairs of
    [zip(scores[0], indices[0])].  The query is the value the caller
    passes: the annotation [str] is not enforced, and [run_benchmark]
    passes the question of a row as it is. *)
Record FaissIndex := mkFaissIndex {
  ntotal : Z;
  index_search : pystr -> Z -> list (float * Z)
}.

(** A loaded [TwoStageSearch] instance. *)
Record TwoStageSearch := mkTwoStageSearch {
  index : FaissIndex;
  metadata : list Meta;
  texts : list string
}.

(** ** Loading *)

(** The three files of [index_dir]; [None] is a file that cannot be read. *)
Record IndexDir := mkIndexDir {
  index_faiss : option FaissIndex;
  metadata_pkl : option (list Meta);
  texts_pkl : option (list string)
}.

(** [_load]: read the index, then the metadata, then the texts.  A file that
    cannot be read raises; nothing else is checked. *)
Definition _load (d : IndexDir) : option TwoStageSearch :=
  match index_faiss d with
  | None => None
  | Some ix =>
    match metadata_pkl d with
    | None => None
    | Some md =>
      match texts_pkl d with
      | None => None
      | Some tx => Some (mkTwoStageSearch ix md tx)
      end
    end
  end.

(** ** Text resolution *)

(** [_get_text_by_index]. *)
Definition _get_text_by_index (txts : list string) (idx : Z) : string :=
  if (0 <=? idx) && (idx <? Z.of_nat (List.length txts))
  then nth (Z.to_nat idx) txts ""
  else "".

(** ** Grouping chunk hits by document *)

(** [doc_chunks[doc_id].append(c)], creating the entry at the end of the
    dict when [doc_id] is new. *)
Fixpoint dict_append (d : list (string * list Chunk)) (k : string) (c : Chunk)
  : list (string * list Chunk) :=
  match d with
  | [] => [(k, [c])]
  | (k', cs) :: d' =>
    if String.eqb k' k then (k', cs ++ [c]) :: d'
    else (k', cs) :: dict_append d' k c
  end.

(** The grouping loop over [zip(scores[0], indices[0])].  A negative index
    is skipped; an index past the end of the metadata table raises. *)
Fixpoint group_chunks (md : list Meta) (hits : list (float * Z))
  (doc_chunks : list (string * list Chunk))
  : option (list (string * list Chunk)) :=
  match hits with
  | [] => Some doc_chunks
  | (s, idx) :: hits' =>
    if idx <? 0 then group_chunks md hits' doc_chunks
    else
      match nth_error md (Z.to_nat idx) with
      | None => None
      | Some meta =>
        group_chunks md hits'
          (dict_append doc_chunks (meta_doc_id meta)
             (mkChunk (meta_chunk_index meta) idx s))
      end
  end.

(** ** Scoring and ranking *)

(** The scoring line [sum(c["score"] for c in chunks) / (n ** 0.5)] uses
    two operations whose results depend on where the program runs.

    [n ** 0.5] is [float(n) ** 0.5].  CPython returns [1.0] for the base
    [1.0] and hands a larger base to the C library's [pow], whose result
    need not be the correctly rounded square root: [pow_half x] is that
    result, [pow(x, 0.5)].  The call is taken to succeed with a result
    that is not zero, so that the division raises nothing.

    [sum] over floats adds from left to right up to Python 3.11 and runs a
    compensated summation from Python 3.12 on: [compensated_sum] tells
    which. *)
Class Platform := {
  pow_half : float -> float;
  compensated_sum : bool;
  pow_half_nonzero :
    forall x, (one <? x)%float = true -> (pow_half x =? zero)%float = false
}.

(** [float(n)] for a list length. *)
Definition float_of_nat (n : nat) : float :=
  PrimFloat.of_uint63 (Uint63.of_Z (Z.of_nat n)).

(** [n ** 0.5] for a list length [n] that is not zero. *)
Definition pow_half_of {plat : Platform} (n : nat) : float :=
  let x := float_of_nat n in
  if (x =? one)%float then one else pow_half x.

(** The compensated summation of [sum] (Neumaier's), from the running sum
    [f_result] and the compensation [c]: each step adds to [c] the rounding
    error of its addition, and the end adds a compensation that is finite
    and not zero to the sum. *)
Fixpoint neumaier (xs : list float) (f_result c : float) : float :=
  match xs with
  | [] =>
    if negb (c =? zero)%float && is_finite c then (f_result + c)%float
    else f_result
  | x :: xs' =>
    let t := (f_result + x)%float in
    let c' :=
      if (abs x <=? abs f_result)%float
      then (c + ((f_result - t) + x))%float
      else (c + ((x - t) + f_result))%float in
    neumaier xs' t c'
  end.

(** [sum(xs)] over floats.  The start value is the int [0], so that the
    first addition gives the float [0.0 + x]; the other items are added to
    this float. *)
Definition py_sum {plat : Platform} (xs : list float) : float :=
  match xs with
  | [] => zero
  | x :: xs' =>
    if compensated_sum then neumaier xs' (zero + x)%float zero
    else fold_left PrimFloat.add xs' (zero + x)%float
  end.

(** [sum(c["score"] for c in chunks)]. *)
Definition sum_scores {plat : Platform} (chunks : list Chunk) : float :=
  py_sum (map score chunks).

(** [sum(...) / (n ** 0.5)].  A document of [doc_chunks] has a chunk, so
    that [n] is not zero. *)
Definition aggregate {plat : Platform} (chunks : list Chunk) : float :=
  (sum_scores chunks / pow_half_of (List.length chunks))%float.

Section StableSort.
Context {A : Type} (key : A -> float).

(** Insertion of [x] in front of a sorted list of later elements: [x]
    passes the elements whose key is smaller than its own. *)
Fixpoint insert_by (x : A) (l : list A) : list A :=
  match l with
  | [] => [x]
  | y :: l' =>
    if (key y <? key x)%float then y :: insert_by x l'
    else x :: y :: l'
  end.

(** [sorted(l, key=key)] and [l.sort(key=key)]: a stable ascending sort
    that compares keys with [<] only. *)
Definition sort_by (l : list A) : list A :=
  fold_right insert_by [] l.
End StableSort.

(** The loop building [doc_scores] from [doc_chunks.items()]. *)
Definition score_docs {plat : Platform}
  (doc_chunks : list (string * list Chunk)) : list DocScore :=
  map (fun kv =>
         mkDocScore (fst kv) (aggregate (snd kv))
           (sort_by (fun x => (- score x)%float) (snd kv)))
      doc_chunks.

(** [a] may stand before [b] in a list sorted by [key]: the key of [b] is
    not smaller than the key of [a]. *)
Definition before {A : Type} (key : A -> float) (a b : A) : Prop :=
  (key b <? key a)%float = false.

(** Python's slice [l[:k]]. *)
Definition slice_to {A : Type} (k : Z) (l : list A) : list A :=
  if k <? 0 then firstn (Z.to_nat (Z.of_nat (List.length l) + k)) l
  else firstn (Z.to_nat k) l.

(** ** Context assembly *)

(** ["\n--- Document: " + doc_id + " ---\n"]. *)
Definition header (d : string) : string :=
  ((nl ++ "--- Document: ") ++ d ++ (" ---" ++ nl))%string.

(** The chunk loop of one document, from the state
    [(doc_context, total_chars)].  A chunk without text is passed over; the
    first chunk with text that fails the budget check ends the loop. *)
Fixpoint build_doc_context (txts : list string) (max_context_chars : Z)
  (best_chunks : list Chunk) (doc_context : string) (total_chars : Z)
  : string * Z :=
  match best_chunks with
  | [] => (doc_context, total_chars)
  | chunk :: rest =>
    let chunk_text := _get_text_by_index txts (faiss_index chunk) in
    if truthy chunk_text then
      if total_chars + len chunk_text + len doc_context <? max_context_chars
      then build_doc_context txts max_context_chars rest
             (doc_context ++ ((nl ++ chunk_text) ++ nl))%string
             (total_chars + len chunk_text)
      else (doc_context, total_chars)
    else build_doc_context txts max_context_chars rest doc_context total_chars
  end.

(** The document loop, from the state [(context_parts, total_chars)]. *)
Fixpoint assemble (txts : list string) (max_context_chars : Z)
  (docs : list DocScore) (context_parts : list string) (total_chars : Z)
  : list string * Z :=
  match docs with
  | [] => (context_parts, total_chars)
  | doc :: rest =>
    let best_chunks := firstn 10 (matching_chunks doc) in
    let '(doc_context, total_chars') :=
      build_doc_context txts max_context_chars best_chunks
        (header (doc_id doc)) total_chars in
    let header_len := len (header (doc_id doc)) in
    let context_parts' :=
      if header_len <? len doc_context
      then context_parts ++ [doc_context]
      else context_parts in
    if max_context_chars <=? total_chars'
    then (context_parts', total_chars')
    else assemble txts max_context_chars rest context_parts' total_chars'
  end.

(** ** The query operation *)

(** [doc_scores] after [doc_scores.sort(key=lambda x: -x["score"])]. *)
Definition ranked {plat : Platform}
  (doc_chunks : list (string * list Chunk)) : list DocScore :=
  sort_by (fun d => (- doc_score d)%float) (score_docs doc_chunks).

Definition summary (d : DocScore) : ScoreSummary :=
  mkScoreSummary (doc_id d) (doc_score d)
    (Z.of_nat (List.length (matching_chunks d))).

(** [search], after the nearest-neighbour search has returned [hits]. *)
Definition search_hits {plat : Platform}
  (self : TwoStageSearch) (hits : list (float * Z))
  (top_docs max_context_chars : Z) : option SearchResult :=
  match group_chunks (metadata self) hits [] with
  | None => None
  | Some doc_chunks =>
    let top_doc_scores := slice_to top_docs (ranked doc_chunks) in
    let full_context :=
      join nl (fst (assemble (texts self) max_context_chars
                      top_doc_scores [] 0)) in
    Some (mkSearchResult full_context
            (map doc_id top_doc_scores)
            (map summary top_doc_scores)
            (len full_context))
  end.

(** [TwoStageSearch.search]. *)
Definition search {plat : Platform} (self : TwoStageSearch) (query : pystr)
  (top_k_chunks top_docs max_context_chars : Z) : option SearchResult :=
  search_hits self (index_search (index self) query top_k_chunks)
    top_docs max_context_chars.

(** ** A small fixture *)

Module Fixture.
Definition md : list Meta :=
  [mkMeta "a" 0; mkMeta "b" 0; mkMeta "c" 0; mkMeta "a" 1].
Definition tx : list string := ["x"; "y"; "z"; "ww"].
Definition hits : list (float * Z) :=
  [(0.5%float, 0); (0.25%float, 1); (0.125%float, 2); (0.5%float, -1)].
Definition ix : FaissIndex := mkFaissIndex 4 (fun _ _ => hits).
Definition inst : TwoStageSearch := mkTwoStageSearch ix md tx.
End Fixture.

(** A fixture for ranking: a document with two hits and two documents with
    one. *)
Module Ranking.
(** The doubles written [0.95], [0.9], [0.8] in Python. *)
Definition s095 : float := 0x1.e666666666666p-1%float.
Definition s090 : float := 0x1.ccccccccccccdp-1%float.
Definition s080 : float := 0x1.999999999999ap-1%float.
Definition md : list Meta :=
  [mkMeta "two" 0; mkMeta "one" 0; mkMeta "two" 1; mkMeta "low" 0].
Definition tx : list string := ["alpha"; "beta"; "gamma"; "delta"].
Definition hits : list (float * Z) :=
  [(s095, 1); (s090, 0); (0.5%float, 3); (s080, 2)].
Definition inst : TwoStageSearch :=
  mkTwoStageSearch (mkFaissIndex 4 (fun _ _ => hits)) md tx.
End Ranking.

(** One document of 2921 chunks, every one a hit with the score [1.0]. *)
Module Many.
Definition n : nat := 2921.
Definition md : list Meta :=
  map (fun i => mkMeta "a" (Z.of_nat i)) (seq 0 n).
Definition tx : list string := repeat "t" n.
Definition hits : list (float * Z) :=
  map (fun i => (one, Z.of_nat i)) (seq 0 n).
Definition inst : TwoStageSearch :=
  mkTwoStageSearch (mkFaissIndex (Z.of_nat n) (fun _ _ => hits)) md tx.
End Many.

(** ** Bookkeeping for the proofs

    The functions below follow the two loops and record what the loops do
    (which texts are appended, which documents are visited).  They are tied
    to [build_doc_context] and [assemble] by [build_doc_context_spec] and
    [assemble_spec]. *)

(** What one append adds to [doc_context]. *)
Definition wrap (t : string) : string := ((nl ++ t) ++ nl)%string.

Definition wrap_all (ts : list string) : string :=
  String.concat "" (map wrap ts).

Fixpoint sum_len (ts : list string) : Z :=
  match ts with
  | [] => 0
  | t :: ts' => len t + sum_len ts'
  end.

(** The values taken by [total_chars] after each append of [ts]. *)
Fixpoint running (total : Z) (ts : list string) : list Z :=
  match ts with
  | [] => []
  | t :: ts' => (total + len t) :: running (total + len t) ts'
  end.

(** The texts appended by the chunk loop, in order; [dc_len] is
    [len(doc_context)]. *)
Fixpoint appended (txts : list string) (max_context_chars : Z)
  (best_chunks : list Chunk) (dc_len total_chars : Z) : list string :=
  match best_chunks with
  | [] => []
  | chunk :: rest =>
    let chunk_text := _get_text_by_index txts (faiss_index chunk) in
    if truthy chunk_text then
      if total_chars + len chunk_text + dc_len <? max_context_chars
      then chunk_text ::
           appended txts max_context_chars rest
             (dc_len + (len chunk_text + 2)) (total_chars + len chunk_text)
      else []
    else appended txts max_context_chars rest dc_len total_chars
  end.

(** One iteration of the document loop: the document, [total_chars] when
    the iteration starts, and the texts appended to its section. *)
Record Visit := mkVisit {
  v_doc : DocScore;
  v_start : Z;
  v_texts : list string
}.

Definition v_end (v : Visit) : Z := v_start v + sum_len (v_texts v).

Definition section_of (v : Visit) : string :=
  (header (doc_id (v_doc v)) ++ wrap_all (v_texts v))%string.

(** The iteration put its section in [context_parts]. *)
Definition emitted (v : Visit) : bool :=
  match v_texts v with
  | [] => false
  | _ :: _ => true
  end.

(** The iterations performed by the document loop. *)
Fixpoint visits (txts : list string) (max_context_chars : Z)
  (docs : list DocScore) (total_chars : Z) : list Visit :=
  match docs with
  | [] => []
  | doc :: rest =>
    let v := mkVisit doc total_chars
               (appended txts max_context_chars
                  (firstn 10 (matching_chunks doc))
                  (len (header (doc_id doc))) total_chars) in
    v :: (if max_context_chars <=? v_end v then []
          else visits txts max_context_chars rest (v_end v))
  end.

(** The documents selected by a query, and the iterations of its document
    loop. *)
Definition selected {plat : Platform}
  (self : TwoStageSearch) (hits : list (float * Z))
  (top_docs : Z) : list DocScore :=
  match group_chunks (metadata self) hits [] with
  | None => []
  | Some doc_chunks => slice_to top_docs (ranked doc_chunks)
  end.

Definition search_visits {plat : Platform}
  (self : TwoStageSearch) (hits : list (float * Z))
  (top_docs max_context_chars : Z) : list Visit :=
  visits (texts self) max_context_chars (selected self hits top_docs) 0.

(** The documents whose section is part of the context. *)
Definition included {plat : Platform}
  (self : TwoStageSearch) (hits : list (float * Z))
  (top_docs max_context_chars : Z) : list Visit :=
  filter emitted (search_visits self hits top_docs max_context_chars).

(** The body of the document loop without its early exit, and the loop
    that runs it over every document. *)
Definition doc_step (txts : list string) (max_context_chars : Z)
  (st : list string * Z) (doc : DocScore) : list string * Z :=
  let '(doc_context, total_chars') :=
    build_doc_context txts max_context_chars
      (firstn 10 (matching_chunks doc)) (header (doc_id doc)) (snd st) in
  (if len (header (doc_id doc)) <? len doc_context
   then fst st ++ [doc_context] else fst st,
   total_chars').

Definition assemble_no_exit (txts : list string) (max_context_chars : Z)
  (docs : list DocScore) (context_parts : list string) (total_chars : Z)
  : list string * Z :=
  fold_left (doc_step txts max_context_chars) docs (context_parts, total_chars).

(** What the sections in [vs] add to the context besides chunk text: the
    header, at most ten pairs of newlines, and the joining newline. *)
Fixpoint header_slack (vs : list Visit) : Z :=
  match vs with
  | [] => 0
  | v :: vs' => len (header (doc_id (v_doc v))) + 21 + header_slack vs'
  end.

(** The chunk hits of a query. *)
Definition hits_of (self : TwoStageSearch) (query : pystr) (top_k_chunks : Z)
  : list (float * Z) :=
  index_search (index self) query top_k_chunks.

(** ** Grouping and scores, as the design states them *)

(** The entry of a document in [doc_chunks]; [[]] when it has none. *)
Fixpoint lookup (d : list (string * list Chunk)) (k : string) : list Chunk :=
  match d with
  | [] => []
  | (k', cs) :: d' => if String.eqb k' k then cs else lookup d' k
  end.

(** The raw similarity scores of the surviving chunk hits of document [d],
    in the order of the hits. *)
Fixpoint hit_scores (md : list Meta) (hits : list (float * Z)) (d : string)
  : list float :=
  match hits with
  | [] => []
  | (s, idx) :: hits' =>
    if idx <? 0 then hit_scores md hits' d
    else
      match nth_error md (Z.to_nat idx) with
      | None => hit_scores md hits' d
      | Some meta =>
        if String.eqb (meta_doc_id meta) d then s :: hit_scores md hits' d
        else hit_scores md hits' d
      end
  end.

(** The chunk records of the surviving chunk hits of document [d], one for
    each hit in the order of the hits: the chunk number that the metadata
    table gives for the position, the position, and the raw score. *)
Fixpoint hit_chunks (md : list Meta) (hits : list (float * Z)) (d : string)
  : list Chunk :=
  match hits with
  | [] => []
  | (s, idx) :: hits' =>
    if idx <? 0 then hit_chunks md hits' d
    else
      match nth_error md (Z.to_nat idx) with
      | None => hit_chunks md hits' d
      | Some meta =>
        if String.eqb (meta_doc_id meta) d
        then mkChunk (meta_chunk_index meta) idx s :: hit_chunks md hits' d
        else hit_chunks md hits' d
      end
  end.

(** The aggregate score of the design, [(s_1 + ... + s_n) / sqrt(n)], read
    in binary64: the scores added one after the other, the number of
    scores as a float, its correctly rounded square root, and one
    division. *)
Definition spec_aggregate (ss : list float) : float :=
  let total := fold_left PrimFloat.add ss PrimFloat.zero in
  let n := PrimFloat.of_uint63 (Uint63.of_Z (Z.of_nat (List.length ss))) in
  (total / PrimFloat.sqrt n)%float.

(** Descending order of aggregate scores. *)
Definition desc (a b : DocScore) : Prop :=
  (doc_score b <=? doc_score a)%float = true.

(** The documents whose aggregate score equals [s]. *)
Definition tied (s : float) (d : DocScore) : bool :=
  (doc_score d =? s)%float.

(** ** The order of binary64 numbers

    A number that is not a NaN is ranked by a triple of integers ordered
    lexicographically: its class, then its exponent, then its mantissa. *)

Definition sf_rank (x : spec_float) : Z * (Z * Z) :=
  match x with
  | S754_nan => (0, (0, 0))
  | S754_zero _ => (0, (0, 0))
  | S754_infinity true => (-2, (0, 0))
  | S754_infinity false => (2, (0, 0))
  | S754_finite true m e => (-1, (- e, Z.neg m))
  | S754_finite false m e => (1, (e, Z.pos m))
  end.

Definition rank (x : float) : Z * (Z * Z) := sf_rank (Prim2SF x).

Definition lex_compare (a b : Z * (Z * Z)) : comparison :=
  match fst a ?= fst b with
  | Eq =>
    match fst (snd a) ?= fst (snd b) with
    | Eq => snd (snd a) ?= snd (snd b)
    | c => c
    end
  | c => c
  end.

Definition lex_lt (a b : Z * (Z * Z)) : Prop :=
  fst a < fst b \/
  (fst a = fst b /\
   (fst (snd a) < fst (snd b) \/
    (fst (snd a) = fst (snd b) /\ snd (snd a) < snd (snd b)))).

Definition sf_nan (x : spec_float) : bool :=
  match x with
  | S754_nan => true
  | _ => false
  end.

(** ** Counting hits and chunks *)

(** The hits that are not the "no match" sentinel. *)
Definition valid_hits (hits : list (float * Z)) : list (float * Z) :=
  filter (fun h => negb (snd h <? 0)) hits.

(** The sum of the ["num_matching_chunks"] fields. *)
Fixpoint total_matching (l : list ScoreSummary) : Z :=
  match l with
  | [] => 0
  | e :: l' => num_matching_chunks e + total_matching l'
  end.

(** The number of chunks held by a [doc_chunks] dict. *)
Fixpoint total_chunks (d : list (string * list Chunk)) : Z :=
  match d with
  | [] => 0
  | kv :: d' => Z.of_nat (List.length (snd kv)) + total_chunks d'
  end.

(** Descending order of chunk scores. *)
Definition chunk_desc (a b : Chunk) : Prop :=
  (score b <=? score a)%float = true.

(** Chunk [c] was made from a hit that the metadata table assigns to
    document [k]. *)
Definition from_hit (md : list Meta) (hits : list (float * Z)) (k : string)
  (c : Chunk) : Prop :=
  exists meta,
    In (score c, faiss_index c) hits /\
    0 <= faiss_index c /\
    nth_error md (Z.to_nat (faiss_index c)) = Some meta /\
    meta_doc_id meta = k /\
    chunk_index c = meta_chunk_index meta.

(** * The benchmark driver ([scripts/fair_benchmark.py])

    The chat-completion calls are external: [generate_answer] and the call
    and JSON parsing inside [judge_answer] are parameters, and so is
    [str.upper].  Printing, timestamps and the files written at the end are
    left out. *)

(** ** Loading the questions *)

(** A row of [csv.DictReader]: a dict from the fields of the header to
    their values in the row.  Every row has every field of the header; the
    value of a field that a short row does not reach is [None]. *)
Definition Row : Type := list (string * pystr).

(** [row[k]] ([None] is a [KeyError]) and the base of [row.get(k, d)]. *)
Fixpoint row_get (row : Row) (k : string) : option pystr :=
  match row with
  | [] => None
  | (k', v) :: row' => if String.eqb k' k then Some v else row_get row' k
  end.

Record Question := mkQuestion {
  q_index : Z;
  q_question : pystr;
  q_expected_answer : pystr;
  q_topic : pystr
}.

(** The loop over [enumerate(reader)], at row number [i]. *)
Fixpoint read_rows (reader : list Row) (i limit : Z)
  (questions : list Question) : option (list Question) :=
  match reader with
  | [] => Some questions
  | row :: reader' =>
    if limit <=? i then Some questions
    else
      match row_get row "problem" with
      | None => None
      | Some problem =>
        match row_get row "answer" with
        | None => None
        | Some answer =>
          read_rows reader' (i + 1) limit
            (questions ++
             [mkQuestion i problem answer
                match row_get row "metadata" with
                | Some m => m
                | None => ""
                end])
        end
      end
  end.

(** [load_questions]; the file is [None] when it cannot be opened. *)
Definition load_questions (file : option (list Row)) (limit : Z)
  : option (list Question) :=
  match file with
  | None => None
  | Some reader => read_rows reader 0 limit []
  end.

(** [row[k] = v]: the key keeps its place when the row has it already. *)
Fixpoint row_set (row : Row) (k : string) (v : pystr) : Row :=
  match row with
  | [] => [(k, v)]
  | (k', v') :: row' =>
    if String.eqb k' k then (k', v) :: row'
    else (k', v') :: row_set row' k v
  end.

(** The dict that [csv.DictReader] makes of a record, added to [d]:
    [dict(zip(fieldnames, cells))], then [None] under the fields that the
    record does not reach.  Cells beyond the header go under the key
    [None], which no field name reaches; they are left out. *)
Fixpoint dict_row (fieldnames cells : list string) (d : Row) : Row :=
  match fieldnames with
  | [] => d
  | k :: fieldnames' =>
    match cells with
    | [] => dict_row fieldnames' [] (row_set d k PyNone)
    | c :: cells' => dict_row fieldnames' cells' (row_set d k (PyStr c))
    end
  end.

Definition blank (cells : list string) : bool :=
  match cells with
  | [] => true
  | _ :: _ => false
  end.

(** The rows of [csv.DictReader(f)], from the records that [csv.reader]
    yields for the file: the first record is the header, and a later record
    without cells is skipped. *)
Definition DictReader (records : list (list string)) : list Row :=
  match records with
  | [] => []
  | fieldnames :: records' =>
    map (fun cells => dict_row fieldnames cells [])
      (filter (fun cells => negb (blank cells)) records')
  end.

(** Rows for examples: under the header [problem,answer,metadata] a full
    row and a row with one cell only, and a row under a header without an
    [answer] column. *)
Module Csv.
Definition full : Row :=
  [("problem", PyStr "p0"); ("answer", PyStr "a0"); ("metadata", PyStr "m0")].
Definition short : Row :=
  [("problem", PyStr "p1"); ("answer", PyNone); ("metadata", PyNone)].
Definition no_answer_column : Row :=
  [("problem", PyStr "p2")].
End Csv.

(** Bookkeeping: the question made from row number [i], and the questions
    the loop adds from row number [i] on. *)
Definition question_of_row (i : Z) (row : Row) : option Question :=
  match row_get row "problem" with
  | None => None
  | Some problem =>
    match row_get row "answer" with
    | None => None
    | Some answer =>
      Some (mkQuestion i problem answer
              match row_get row "metadata" with
              | Some m => m
              | None => ""
              end)
    end
  end.

Fixpoint questions_from (reader : list Row) (i limit : Z)
  : option (list Question) :=
  match reader with
  | [] => Some []
  | row :: reader' =>
    if limit <=? i then Some []
    else
      match question_of_row i row with
      | None => None
      | Some q => option_map (cons q) (questions_from reader' (i + 1) limit)
      end
  end.

(** ** Values of the run *)

(** The exceptions caught by [except Exception]. *)
Inductive exn :=
| IndexError
| AttributeError
| TypeError
| ExternalError (msg : string).

(** What [json.loads] returns. *)
#[local] Unset Elimination Schemes.
Inductive json :=
| JNull
| JBool (b : bool)
| JInt (n : Z)
| JFloat (f : float)
| JStr (s : string)
| JArr (l : list json)
| JObj (o : list (string * json)).
#[local] Set Elimination Schemes.

(** [o.get(k)] on a dict. *)
Fixpoint obj_get (o : list (string * json)) (k : string) : option json :=
  match o with
  | [] => None
  | (k', v) :: o' => if String.eqb k' k then Some v else obj_get o' k
  end.

(** [o[k] = v] for a key that is present. *)
Fixpoint obj_set (o : list (string * json)) (k : string) (v : json)
  : list (string * json) :=
  match o with
  | [] => []
  | (k', v') :: o' =>
    if String.eqb k' k then (k', v) :: o' else (k', v') :: obj_set o' k v
  end.

(** [sub in s] on strings. *)
Definition contains (sub s : string) : bool :=
  match String.index 0 sub s with
  | Some _ => true
  | None => false
  end.

(** ["verdict" == x] for an element of a list. *)
Definition is_verdict_str (x : json) : bool :=
  match x with
  | JStr s => String.eqb s "verdict"
  | _ => false
  end.

(** The [usage] dict of [generate_answer]. *)
Record Usage := mkUsage {
  u_prompt_tokens : Z;
  u_completion_tokens : Z;
  u_total_tokens : Z;
  u_latency_ms : float
}.

(** An entry of [results]: of a judged question, or of a question whose
    attempt raised [error] (its ["verdict"] is ["NOT_ATTEMPTED"], its
    ["actual_answer"] and ["error"] are renderings of [error]). *)
Inductive Entry :=
| Judged (index : Z) (question expected_answer : pystr)
    (actual_answer verdict : string)
    (confidence explanation : json) (top_docs : list string)
    (doc_scores : list ScoreSummary) (ctx_chars : Z)
    (latency : float) (tokens : Z)
| Failed (index : Z) (question expected_answer : pystr) (error : exn).

Definition entry_index (e : Entry) : Z :=
  match e with
  | Judged i _ _ _ _ _ _ _ _ _ _ _ => i
  | Failed i _ _ _ => i
  end.

Definition entry_verdict (e : Entry) : string :=
  match e with
  | Judged _ _ _ _ v _ _ _ _ _ _ _ => v
  | Failed _ _ _ _ => "NOT_ATTEMPTED"
  end.

(** The variables of the question loop. *)
Record RunState := mkRunState {
  results : list Entry;
  n_correct : Z;
  n_incorrect : Z;
  n_not_attempted : Z;
  total_latency : float;
  total_tokens : Z
}.

Definition initial : RunState := mkRunState [] 0 0 0 PrimFloat.zero 0.

(** The number of entries of [l] that satisfy [p]. *)
Definition count_if (p : Entry -> bool) (l : list Entry) : Z :=
  Z.of_nat (List.length (filter p l)).

Definition is_correct (e : Entry) : bool :=
  String.eqb (entry_verdict e) "CORRECT".

Definition is_not_attempted (e : Entry) : bool :=
  String.eqb (entry_verdict e) "NOT_ATTEMPTED".

Definition is_incorrect (e : Entry) : bool :=
  negb (is_correct e) && negb (is_not_attempted e).

(** The sum of the ["total_tokens"] of the usages that exist. *)
Fixpoint sum_tokens (l : list (option Usage)) : Z :=
  match l with
  | [] => 0
  | Some u :: l' => u_total_tokens u + sum_tokens l'
  | None :: l' => sum_tokens l'
  end.

(** [1] for [true], [0] for [false]. *)
Definition bump (b : bool) : Z := if b then 1 else 0.

(** What an iteration does to the results and the counters, given the
    entry [x] it appends. *)
Definition appends (st st' : RunState) (x : Entry) : Prop :=
  results st' = results st ++ [x] /\
  n_correct st' = n_correct st + bump (is_correct x) /\
  n_incorrect st' = n_incorrect st + bump (is_incorrect x) /\
  n_not_attempted st' = n_not_attempted st + bump (is_not_attempted x).

(** The state after [generate_answer] returned: the totals have moved, the
    results and the counters have not. *)
Definition same_counts (st st1 : RunState) : Prop :=
  results st1 = results st /\ n_correct st1 = n_correct st /\
  n_incorrect st1 = n_incorrect st /\ n_not_attempted st1 = n_not_attempted st.

(** ** The question loop *)

Section Benchmark.
Context {plat : Platform}.
Variable upper : string -> string.
Variable generate_answer : pystr -> string -> exn + (string * Usage).
Variable judge_call : pystr -> pystr -> string -> exn + json.
Variable search_obj : TwoStageSearch.

(** [judge_answer]: the parsed reply, its verdict upper-cased. *)
Definition judge_answer (question expected : pystr) (actual : string)
  : exn + json :=
  match judge_call question expected actual with
  | inl e => inl e
  | inr result =>
    match result with
    | JObj o =>
      match obj_get o "verdict" with
      | None => inr result
      | Some (JStr v) => inr (JObj (obj_set o "verdict" (JStr (upper v))))
      | Some _ => inl AttributeError
      end
    | JArr l => if existsb is_verdict_str l then inl TypeError else inr result
    | JStr s => if contains "verdict" s then inl TypeError else inr result
    | _ => inl TypeError
    end
  end.

(** The [except] branch. *)
Definition on_error (st : RunState) (q : Question) (e : exn) : RunState :=
  mkRunState
    (results st ++
     [Failed (q_index q) (q_question q) (q_expected_answer q) e])
    (n_correct st) (n_incorrect st) (n_not_attempted st + 1)
    (total_latency st) (total_tokens st).

(** The end of the [try] block, once the verdict is known. *)
Definition on_verdict (st : RunState) (q : Question) (sr : SearchResult)
  (answer : string) (usage : Usage) (o : list (string * json))
  (verdict : string) : RunState :=
  mkRunState
    (results st ++
     [Judged (q_index q) (q_question q) (q_expected_answer q) answer verdict
        match obj_get o "confidence" with Some c => c | None => JInt 0 end
        match obj_get o "explanation" with Some x => x | None => JStr "" end
        (top_documents sr) (document_scores sr) (context_chars sr)
        (u_latency_ms usage) (u_total_tokens usage)])
    (if String.eqb verdict "CORRECT" then n_correct st + 1 else n_correct st)
    (if String.eqb verdict "CORRECT" then n_incorrect st
     else if String.eqb verdict "NOT_ATTEMPTED" then n_incorrect st
          else n_incorrect st + 1)
    (if String.eqb verdict "CORRECT" then n_not_attempted st
     else if String.eqb verdict "NOT_ATTEMPTED" then n_not_attempted st + 1
          else n_not_attempted st)
    (total_latency st) (total_tokens st).

(** One iteration of the question loop. *)
Definition step (st : RunState) (q : Question) : RunState :=
  match search search_obj (q_question q) 30 5 12000 with
  | None => on_error st q IndexError
  | Some search_result =>
    match generate_answer (q_question q) (context search_result) with
    | inl e => on_error st q e
    | inr (answer, usage) =>
      let st1 :=
        mkRunState (results st) (n_correct st) (n_incorrect st)
          (n_not_attempted st)
          (total_latency st + u_latency_ms usage)%float
          (total_tokens st + u_total_tokens usage) in
      match judge_answer (q_question q) (q_expected_answer q) answer with
      | inl e => on_error st1 q e
      | inr (JObj o) =>
        match obj_get o "verdict" with
        | None => on_verdict st1 q search_result answer usage o (upper "INCORRECT")
        | Some (JStr v) => on_verdict st1 q search_result answer usage o (upper v)
        | Some _ => on_error st1 q AttributeError
        end
      | inr _ => on_error st1 q AttributeError
      end
    end
  end.

Definition run_questions (questions : list Question) : RunState :=
  fold_left step questions initial.

(** Bookkeeping: the usage of the answer generated for [q], if retrieval
    and generation both returned. *)
Definition answer_usage (q : Question) : option Usage :=
  match search search_obj (q_question q) 30 5 12000 with
  | None => None
  | Some search_result =>
    match generate_answer (q_question q) (context search_result) with
    | inl _ => None
    | inr (_, usage) => Some usage
    end
  end.

(** Bookkeeping: the entry that an iteration appends for [q]. *)
Definition entry_for (q : Question) : Entry :=
  match results (step initial q) with
  | e :: _ => e
  | [] => Failed (q_index q) (q_question q) (q_expected_answer q) IndexError
  end.
End Benchmark.

(** ** The metrics *)

Definition PENALTY_RATIO : float := 4%float.

(** [float(z)]. *)
Definition float_of_Z (z : Z) : float :=
  if z <? 0 then (- PrimFloat.of_uint63 (Uint63.of_Z (- z)))%float
  else PrimFloat.of_uint63 (Uint63.of_Z z).

(** A value that is an [int] or a [float]. *)
Inductive number :=
| NInt (z : Z)
| NFloat (f : float).

Record Metrics := mkMetrics {
  quality_score : float;
  volume_score : float;
  attempted_rate : float;
  accuracy_given_attempted : number;
  m_n_correct : Z;
  m_n_incorrect : Z;
  m_n_not_attempted : Z;
  avg_latency_ms : float;
  avg_tokens : float
}.

(** The metrics of the summary, for [n = len(questions)]; the divisions by
    [n] raise [ZeroDivisionError] when there is no question.  A quotient of
    two [int]s is the quotient of their conversions, which is what Python
    computes below [2 ** 53]. *)
Definition compute_metrics (st : RunState) (n : Z) : option Metrics :=
  if n =? 0 then None
  else
    Some (mkMetrics
      ((float_of_Z (n_correct st)
        - PENALTY_RATIO * float_of_Z (n_incorrect st)) / float_of_Z n)%float
      (float_of_Z (n_correct st) / float_of_Z n)%float
      (float_of_Z (n_correct st + n_incorrect st) / float_of_Z n)%float
      (if 0 <? n_correct st + n_incorrect st
       then NFloat (float_of_Z (n_correct st)
                    / float_of_Z (n_correct st + n_incorrect st))%float
       else NInt 0)
      (n_correct st) (n_incorrect st) (n_not_attempted st)
      (total_latency st / float_of_Z n)%float
      (float_of_Z (total_tokens st) / float_of_Z n)%float).

(** [run_benchmark], from the index directory and the questions file to the
    metrics and the detailed results. *)
Definition run_benchmark {plat : Platform} (upper : string -> string)
  (generate_answer : pystr -> string -> exn + (string * Usage))
  (judge_call : pystr -> pystr -> string -> exn + json)
  (index_dir : IndexDir) (questions_file : option (list Row))
  (num_questions : Z) : option (Metrics * list Entry) :=
  match _load index_dir with
  | None => None
  | Some search_obj =>
    match load_questions questions_file num_questions with
    | None => None
    | Some questions =>
      let st := run_questions upper generate_answer judge_call search_obj
                  questions in
      match compute_metrics st (Z.of_nat (List.length questions)) with
      | None => None
      | Some m => Some (m, results st)
      end
    end
  end.

(** * Properties *)

(** ** Platforms

    The correctly rounded square root of a number above one is not zero:
    the root of the mantissa is not zero, and rounding it shifts out fewer
    bits than it has. *)

Lemma digits2_pos_bounds p :
  2 ^ (Z.pos (digits2_pos p) - 1) <= Z.pos p < 2 ^ Z.pos (digits2_pos p).
Proof.
  induction p as [p IH|p IH|]; cbn [digits2_pos].
  - rewrite Pos2Z.inj_succ.
    replace (Z.succ (Z.pos (digits2_pos p)) - 1)
      with (Z.succ (Z.pos (digits2_pos p) - 1)) by lia.
    rewrite !Z.pow_succ_r by lia. lia.
  - rewrite Pos2Z.inj_succ.
    replace (Z.succ (Z.pos (digits2_pos p)) - 1)
      with (Z.succ (Z.pos (digits2_pos p) - 1)) by lia.
    rewrite !Z.pow_succ_r by lia. lia.
  - cbn. lia.
Qed.

Lemma shr_1_m mrs : 0 <= shr_m mrs -> shr_m (shr_1 mrs) = shr_m mrs / 2.
Proof.
  destruct mrs as [m r s]. cbn [shr_m shr_1]. intros H.
  destruct m as [|[p|p|]|p]; cbn [shr_m]; try lia.
  - reflexivity.
  - rewrite Pos2Z.inj_xI. apply Z.div_unique with (r := 1); lia.
  - rewrite Pos2Z.inj_xO. apply Z.div_unique with (r := 0); lia.
  - reflexivity.
Qed.

Lemma iter_shr_1_m p : forall mrs,
  0 <= shr_m mrs ->
  shr_m (iter_pos shr_1 p mrs) = shr_m mrs / 2 ^ Z.pos p.
Proof.
  induction p as [p IH|p IH|]; intros mrs H; cbn [iter_pos].
  - assert (H1 : 0 <= shr_m (shr_1 mrs))
      by (rewrite shr_1_m by assumption; apply Z.div_pos; lia).
    assert (H2 : 0 <= shr_m (iter_pos shr_1 p (shr_1 mrs)))
      by (rewrite IH by assumption; apply Z.div_pos; lia).
    rewrite IH, IH, shr_1_m by assumption.
    rewrite !Z.div_div by lia. f_equal.
    rewrite Pos2Z.inj_xI, Z.pow_add_r, Z.pow_mul_r by lia.
    change (2 ^ 2) with 4. change (2 ^ 1) with 2.
    replace (4 ^ Z.pos p) with (2 ^ Z.pos p * 2 ^ Z.pos p); [lia|].
    rewrite <- Z.pow_add_r by lia.
    replace (Z.pos p + Z.pos p) with (2 * Z.pos p) by lia.
    rewrite Z.pow_mul_r by lia. reflexivity.
  - assert (H2 : 0 <= shr_m (iter_pos shr_1 p mrs))
      by (rewrite IH by assumption; apply Z.div_pos; lia).
    rewrite IH, IH by assumption.
    rewrite !Z.div_div by lia. f_equal.
    rewrite Pos2Z.inj_xO, <- Z.pow_add_r by lia. f_equal. lia.
  - rewrite shr_1_m by assumption. reflexivity.
Qed.

Lemma shr_record_of_loc_m m l : shr_m (shr_record_of_loc m l) = m.
Proof. now destruct l as [|[]]. Qed.

Lemma shr_fexp_pos m e l :
  0 < m -> SpecFloat.emin prec emax <= e ->
  0 < shr_m (fst (shr_fexp prec emax m e l)) /\
  SpecFloat.emin prec emax <= snd (shr_fexp prec emax m e l).
Proof.
  intros Hm He. unfold shr_fexp, shr.
  destruct m as [|p|p]; try lia. cbn [Zdigits2].
  pose proof (digits2_pos_bounds p) as [B _].
  set (d := Z.pos (digits2_pos p)) in *.
  assert (Hn : fexp prec emax (d + e) - e <= d - 1).
  { unfold fexp, prec. unfold prec in He. lia. }
  destruct (fexp prec emax (d + e) - e) as [|n|n] eqn:En; cbn [fst snd];
    rewrite ?shr_record_of_loc_m; try (split; lia).
  rewrite iter_shr_1_m by (rewrite shr_record_of_loc_m; lia).
  rewrite shr_record_of_loc_m. split; [|lia].
  apply Z.div_str_pos. split; [lia|].
  apply Z.le_trans with (2 ^ (d - 1)); [|exact B].
  apply Z.pow_le_mono_r; lia.
Qed.

Lemma round_nearest_even_pos m l : 0 < m -> 0 < round_nearest_even m l.
Proof.
  intros H. destruct l as [|[]]; cbn [round_nearest_even]; try lia.
  destruct (Z.even m); lia.
Qed.

Lemma binary_round_aux_nonzero sx m e l s :
  0 < m -> SpecFloat.emin prec emax <= e ->
  binary_round_aux prec emax sx m e l <> S754_zero s.
Proof.
  intros Hm He. unfold binary_round_aux.
  pose proof (shr_fexp_pos m e l Hm He) as [H1 H2].
  destruct (shr_fexp prec emax m e l) as [mrs' e']. cbn [fst snd] in H1, H2.
  pose proof (shr_fexp_pos _ e' loc_Exact
                (round_nearest_even_pos _ (loc_of_shr_record mrs') H1) H2)
    as [H3 _].
  destruct (shr_fexp prec emax _ e' loc_Exact) as [mrs'' e''].
  cbn [fst] in H3. destruct (shr_m mrs''); try lia.
  destruct (e'' <=? emax - prec); discriminate.
Qed.

Lemma SFsqrt_nonzero mx ex s :
  valid_binary (S754_finite false mx ex) = true ->
  SFsqrt prec emax (S754_finite false mx ex) <> S754_zero s.
Proof.
  cbn [valid_binary]. unfold bounded, canonical_mantissa. intros V.
  apply andb_true_iff in V. destruct V as [V _]. apply Z.eqb_eq in V.
  assert (He : SpecFloat.emin prec emax <= ex) by (unfold fexp in V; lia).
  cbn [SFsqrt]. unfold SFsqrt_core_binary.
  set (e' := Z.min _ (Z.div2 ex)).
  assert (E1 : SpecFloat.emin prec emax <= e').
  { subst e'. rewrite Z.div2_div. unfold fexp.
    assert (SpecFloat.emin prec emax <= ex / 2).
    { apply Z.div_le_lower_bound; [lia|]. unfold emin, prec, emax in *. lia. }
    lia. }
  assert (E2 : 2 * e' <= ex).
  { subst e'. rewrite Z.div2_div.
    pose proof (Z.mul_div_le ex 2 ltac:(lia)). lia. }
  set (m' := match ex - 2 * e' with
             | 0 => Z.pos mx
             | Z.pos _ => Z.shiftl (Z.pos mx) (ex - 2 * e')
             | Z.neg _ => 0
             end).
  assert (M : 0 < m').
  { subst m'. destruct (ex - 2 * e') eqn:Es; try lia.
    rewrite Z.shiftl_mul_pow2 by lia.
    apply Z.mul_pos_pos; [lia|]. apply Z.pow_pos_nonneg; lia. }
  pose proof (Z.sqrtrem_spec m' ltac:(lia)) as S.
  destruct (Z.sqrtrem m') as [q r].
  apply binary_round_aux_nonzero; [|exact E1]. nia.
Qed.

Lemma sqrt_nonzero x :
  (one <? x)%float = true -> (PrimFloat.sqrt x =? zero)%float = false.
Proof.
  rewrite FloatAxioms.ltb_spec, FloatAxioms.eqb_spec, FloatAxioms.sqrt_spec.
  pose proof (Prim2SF_valid x) as V.
  change (Prim2SF one) with (S754_finite false 4503599627370496 (-52)).
  change (Prim2SF zero) with (S754_zero false).
  destruct (Prim2SF x) as [s|[]| |[] mx ex]; try discriminate.
  - intros _. reflexivity.
  - intros _.
    pose proof (SFsqrt_nonzero mx ex true V).
    pose proof (SFsqrt_nonzero mx ex false V).
    unfold SF64sqrt.
    destruct (SFsqrt prec emax (S754_finite false mx ex)) as [[]|[]| |[]];
      try reflexivity; congruence.
Qed.

(** A C library with a correctly rounded [pow(x, 0.5)], under an
    interpreter whose [sum] adds from left to right. *)
Definition exact_libm : Platform :=
  {| pow_half := PrimFloat.sqrt;
     compensated_sum := false;
     pow_half_nonzero := sqrt_nonzero |}.

(** The same C library under an interpreter with the compensated [sum]. *)
Definition exact_libm_compensated : Platform :=
  {| pow_half := PrimFloat.sqrt;
     compensated_sum := true;
     pow_half_nonzero := sqrt_nonzero |}.

(** [pow(x, 0.5)] as CPython 3.11 on glibc 2.36 returns it at [2921.0]: one
    unit in the last place below the correctly rounded root, which is
    [0x1.b05ec632536fbp+5].  At the other arguments it is set to the
    rounded root; the examples use it at [2921.0] only. *)
Definition observed_pow_half (x : float) : float :=
  if (x =? 0x1.6d2p+11)%float then 0x1.b05ec632536fap+5%float
  else PrimFloat.sqrt x.

Lemma observed_pow_half_nonzero x :
  (one <? x)%float = true -> (observed_pow_half x =? zero)%float = false.
Proof.
  intros H. unfold observed_pow_half.
  destruct (x =? 0x1.6d2p+11)%float; [reflexivity | now apply sqrt_nonzero].
Qed.

(** The platform of the observation: this [pow], and the left-to-right
    [sum] of Python 3.11. *)
Definition observed : Platform :=
  {| pow_half := observed_pow_half;
     compensated_sum := false;
     pow_half_nonzero := observed_pow_half_nonzero |}.

(** ** Strings *)

Lemma append_assoc (a b c : string) :
  ((a ++ b) ++ c = a ++ (b ++ c))%string.
Proof.
  induction a as [|x a IH]; simpl; [reflexivity | now rewrite IH].
Qed.

Lemma append_empty_r (a : string) : (a ++ "")%string = a.
Proof.
  induction a as [|x a IH]; simpl; [reflexivity | now rewrite IH].
Qed.

Lemma len_append (a b : string) : len (a ++ b) = len a + len b.
Proof.
  unfold len. induction a as [|x a IH]; simpl String.length.
  - reflexivity.
  - rewrite !Nat2Z.inj_succ. simpl in IH. lia.
Qed.

Lemma len_nonneg (s : string) : 0 <= len s.
Proof. unfold len. lia. Qed.

Lemma len_header (d : string) : len (header d) = 20 + len d.
Proof.
  unfold header. rewrite !len_append.
  change (len nl) with 1. change (len "--- Document: ") with 14.
  change (len " ---") with 4. lia.
Qed.

Lemma truthy_len (s : string) : truthy s = true <-> 0 < len s.
Proof.
  unfold len. destruct s; simpl; split; intros H; try lia; congruence.
Qed.

Lemma truthy_false (s : string) : truthy s = false <-> s = "".
Proof. destruct s; simpl; split; congruence. Qed.

Lemma len_wrap (t : string) : len (wrap t) = len t + 2.
Proof. unfold wrap. rewrite !len_append. change (len nl) with 1. lia. Qed.

Lemma wrap_all_cons (t : string) (ts : list string) :
  wrap_all (t :: ts) = (wrap t ++ wrap_all ts)%string.
Proof.
  unfold wrap_all. simpl. destruct (map wrap ts) eqn:E.
  - simpl. now rewrite append_empty_r.
  - reflexivity.
Qed.

Lemma len_wrap_all (ts : list string) :
  len (wrap_all ts) = sum_len ts + 2 * Z.of_nat (List.length ts).
Proof.
  induction ts as [|t ts IH].
  - reflexivity.
  - rewrite wrap_all_cons, len_append, len_wrap, IH. simpl sum_len.
    simpl List.length. lia.
Qed.

Lemma sum_len_nonneg (ts : list string) : 0 <= sum_len ts.
Proof.
  induction ts as [|t ts IH]; simpl; [lia | pose proof (len_nonneg t); lia].
Qed.

Lemma len_join (parts : list string) :
  parts <> [] ->
  len (join nl parts) = sum_len parts + Z.of_nat (List.length parts) - 1.
Proof.
  unfold join. induction parts as [|p ps IH]; [congruence|]. intros _.
  destruct ps as [|q ps].
  - simpl. lia.
  - change (String.concat nl (p :: q :: ps))
      with (p ++ nl ++ String.concat nl (q :: ps))%string.
    rewrite !len_append, IH by congruence.
    change (len nl) with 1. simpl sum_len. simpl List.length. lia.
Qed.

(** ** The chunk loop *)

Lemma build_doc_context_spec txts mx chunks : forall dc total,
  build_doc_context txts mx chunks dc total =
  ((dc ++ wrap_all (appended txts mx chunks (len dc) total))%string,
   total + sum_len (appended txts mx chunks (len dc) total)).
Proof.
  induction chunks as [|c rest IH]; intros dc total;
    cbn [build_doc_context appended].
  - cbn. now rewrite append_empty_r, Z.add_0_r.
  - destruct (truthy (_get_text_by_index txts (faiss_index c))).
    + destruct (_ <? mx).
      * set (t := _get_text_by_index txts (faiss_index c)).
        change ((nl ++ t) ++ nl)%string with (wrap t).
        rewrite IH, len_append, len_wrap, wrap_all_cons, append_assoc.
        simpl sum_len. f_equal. lia.
      * cbn. now rewrite append_empty_r, Z.add_0_r.
    + apply IH.
Qed.

Lemma appended_truthy txts mx chunks : forall dcl total,
  Forall (fun t => truthy t = true) (appended txts mx chunks dcl total).
Proof.
  induction chunks as [|c rest IH]; intros dcl total; simpl; [constructor|].
  destruct (truthy _) eqn:Et; [|apply IH].
  destruct (_ <? mx); constructor; [exact Et | apply IH].
Qed.

Lemma appended_length txts mx chunks : forall dcl total,
  (List.length (appended txts mx chunks dcl total) <= List.length chunks)%nat.
Proof.
  induction chunks as [|c rest IH]; intros dcl total; simpl; [lia|].
  destruct (truthy _).
  - destruct (_ <? mx); simpl; [|lia].
    specialize (IH (dcl + (len (_get_text_by_index txts (faiss_index c)) + 2))
                   (total + len (_get_text_by_index txts (faiss_index c)))).
    lia.
  - specialize (IH dcl total). lia.
Qed.

(** Every value of the running total, together with the length the section
    had when the loop started, is below the budget. *)
Lemma appended_running txts mx chunks : forall dcl total,
  Forall (fun x => x + dcl < mx)
         (running total (appended txts mx chunks dcl total)).
Proof.
  induction chunks as [|c rest IH]; intros dcl total; simpl; [constructor|].
  destruct (truthy _); [|apply IH].
  destruct (_ <? mx) eqn:E; [|constructor].
  simpl. constructor.
  - apply Z.ltb_lt in E. lia.
  - eapply Forall_impl; [|apply IH]. simpl. intros x Hx.
    pose proof (len_nonneg (_get_text_by_index txts (faiss_index c))). lia.
Qed.

Lemma running_last total ts :
  ts <> [] -> In (total + sum_len ts) (running total ts).
Proof.
  revert total. induction ts as [|t ts IH]; intros total H; [congruence|].
  simpl. destruct ts as [|t' ts].
  - left. simpl. lia.
  - right. replace (total + (len t + sum_len (t' :: ts)))
      with ((total + len t) + sum_len (t' :: ts)) by lia.
    apply IH. congruence.
Qed.

Lemma appended_budget txts mx chunks dcl total :
  appended txts mx chunks dcl total <> [] ->
  total + sum_len (appended txts mx chunks dcl total) + dcl < mx.
Proof.
  intros H. pose proof (appended_running txts mx chunks dcl total) as F.
  rewrite Forall_forall in F. apply (F _ (running_last total _ H)).
Qed.

(** Once the budget is used up nothing is appended. *)
Lemma appended_exhausted txts mx chunks : forall dcl total,
  mx <= total + dcl -> appended txts mx chunks dcl total = [].
Proof.
  induction chunks as [|c rest IH]; intros dcl total H; simpl; [reflexivity|].
  destruct (truthy _); [|now apply IH].
  destruct (_ <? mx) eqn:E; [|reflexivity].
  apply Z.ltb_lt in E.
  pose proof (len_nonneg (_get_text_by_index txts (faiss_index c))). lia.
Qed.

(** ** The document loop *)

Lemma emitted_header_len v :
  (len (header (doc_id (v_doc v))) <? len (section_of v)) = emitted v.
Proof.
  unfold section_of, emitted. rewrite len_append, len_wrap_all.
  destruct (v_texts v) as [|t ts]; simpl sum_len; simpl List.length.
  - apply Z.ltb_ge. lia.
  - apply Z.ltb_lt. pose proof (len_nonneg t). pose proof (sum_len_nonneg ts).
    lia.
Qed.

Lemma assemble_spec txts mx docs : forall parts total,
  fst (assemble txts mx docs parts total) =
  parts ++ map section_of (filter emitted (visits txts mx docs total)).
Proof.
  induction docs as [|d rest IH]; intros parts total; cbn [assemble visits].
  - cbn. now rewrite app_nil_r.
  - cbv zeta. rewrite build_doc_context_spec.
    set (ts := appended txts mx (firstn 10 (matching_chunks d))
                 (len (header (doc_id d))) total).
    pose proof (emitted_header_len (mkVisit d total ts)) as He.
    unfold section_of, emitted in He. cbn [v_doc v_texts] in He. rewrite He.
    unfold v_end. cbn [v_start v_texts].
    destruct (mx <=? total + sum_len ts).
    + cbn [fst filter map emitted v_texts].
      destruct ts; cbn [map]; [now rewrite app_nil_r | reflexivity].
    + rewrite IH. cbn [filter emitted v_texts].
      destruct ts; cbn [map]; [reflexivity|].
      now rewrite <- app_assoc.
Qed.

Lemma visits_texts txts mx docs : forall total v,
  In v (visits txts mx docs total) ->
  v_texts v = appended txts mx (firstn 10 (matching_chunks (v_doc v)))
                (len (header (doc_id (v_doc v)))) (v_start v).
Proof.
  induction docs as [|d rest IH]; intros total v; cbn [visits In]; [tauto|].
  intros [<-|H]; [reflexivity|].
  destruct (mx <=? _); [destruct H | eauto].
Qed.

Lemma visits_start txts mx docs : forall total v,
  In v (visits txts mx docs total) -> total <= v_start v.
Proof.
  induction docs as [|d rest IH]; intros total v; cbn [visits In]; [tauto|].
  intros [<-|H]; [cbn; lia|].
  destruct (mx <=? _); [destruct H|].
  apply IH in H. unfold v_end in H. cbn [v_start v_texts] in H.
  pose proof (sum_len_nonneg
    (appended txts mx (firstn 10 (matching_chunks d))
       (len (header (doc_id d))) total)). lia.
Qed.

Lemma visits_prefix txts mx docs : forall total,
  exists rest, docs = map v_doc (visits txts mx docs total) ++ rest.
Proof.
  induction docs as [|d ds IH]; intros total; cbn [visits].
  - now exists [].
  - destruct (mx <=? _).
    + now exists ds.
    + destruct (IH (v_end (mkVisit d total
        (appended txts mx (firstn 10 (matching_chunks d))
           (len (header (doc_id d))) total)))) as [rest E].
      exists rest. cbn [map v_doc app]. now rewrite <- E.
Qed.

(** With a positive budget the running total stays below it, so the loop
    never leaves early. *)
Lemma visits_all txts mx docs : forall total,
  0 < mx -> 0 <= total < mx ->
  map v_doc (visits txts mx docs total) = docs /\
  Forall (fun v => Forall (fun x => x < mx) (running (v_start v) (v_texts v))
                   /\ v_end v < mx)
         (visits txts mx docs total).
Proof.
  induction docs as [|d ds IH]; intros total Hmx Ht; cbn [visits].
  - split; constructor.
  - set (ts := appended txts mx (firstn 10 (matching_chunks d))
                 (len (header (doc_id d))) total).
    assert (Hr : Forall (fun x => x < mx) (running total ts)).
    { eapply Forall_impl; [|apply appended_running]. cbn beta. intros x Hx.
      rewrite len_header in Hx. pose proof (len_nonneg (doc_id d)). lia. }
    assert (He : total + sum_len ts < mx).
    { destruct ts as [|t ts'] eqn:E; [cbn; lia|].
      rewrite Forall_forall in Hr. apply Hr. apply running_last. congruence. }
    unfold v_end. cbn [v_start v_texts].
    destruct (mx <=? total + sum_len ts) eqn:Eb.
    { apply Z.leb_le in Eb. lia. }
    destruct (IH (total + sum_len ts) Hmx) as [IH1 IH2].
    { pose proof (sum_len_nonneg ts). lia. }
    cbn [map v_doc]. split.
    + now rewrite IH1.
    + constructor; [split; assumption | exact IH2].
Qed.

Lemma visits_build txts mx docs total v :
  In v (visits txts mx docs total) ->
  build_doc_context txts mx (firstn 10 (matching_chunks (v_doc v)))
    (header (doc_id (v_doc v))) (v_start v) = (section_of v, v_end v).
Proof.
  intros H. rewrite build_doc_context_spec.
  unfold section_of, v_end. now rewrite <- (visits_texts _ _ _ _ _ H).
Qed.

Lemma assemble_no_exit_eq txts mx docs : forall parts total,
  0 < mx -> 0 <= total < mx ->
  assemble txts mx docs parts total = assemble_no_exit txts mx docs parts total.
Proof.
  unfold assemble_no_exit.
  induction docs as [|d ds IH]; intros parts total Hmx Ht;
    cbn [assemble fold_left]; [reflexivity|].
  unfold doc_step. cbn [fst snd]. cbv zeta.
  rewrite build_doc_context_spec.
  set (ts := appended txts mx (firstn 10 (matching_chunks d))
               (len (header (doc_id d))) total).
  assert (He : total + sum_len ts < mx).
  { destruct ts as [|t ts'] eqn:E; [cbn; lia|].
    assert (Hn : ts <> []) by (rewrite E; congruence).
    pose proof (appended_budget _ _ _ _ _ Hn) as Hb. fold ts in Hb.
    rewrite E in Hb. pose proof (len_nonneg (header (doc_id d))). lia. }
  destruct (mx <=? total + sum_len ts) eqn:Eb.
  { apply Z.leb_le in Eb. lia. }
  apply IH; [assumption|]. pose proof (sum_len_nonneg ts). lia.
Qed.

(** ** The query operation *)

Lemma search_hits_inv {plat : Platform} self hits top_docs mx r :
  search_hits self hits top_docs mx = Some r ->
  r = mkSearchResult
        (join nl (map section_of (included self hits top_docs mx)))
        (map doc_id (selected self hits top_docs))
        (map summary (selected self hits top_docs))
        (len (join nl (map section_of (included self hits top_docs mx)))).
Proof.
  unfold search_hits, included, search_visits, selected.
  destruct (group_chunks (metadata self) hits []) as [g|]; [|discriminate].
  intros [= <-]. now rewrite assemble_spec.
Qed.

Lemma group_chunks_in_range md hits : forall acc,
  (forall s idx, In (s, idx) hits -> idx < Z.of_nat (List.length md)) ->
  group_chunks md hits acc <> None.
Proof.
  induction hits as [|[s idx] hits IH]; intros acc H; cbn [group_chunks].
  - discriminate.
  - destruct (idx <? 0) eqn:E.
    + apply IH. intros s' i Hi. apply (H s' i). now right.
    + destruct (nth_error md (Z.to_nat idx)) eqn:En.
      * apply IH. intros s' i Hi. apply (H s' i). now right.
      * apply nth_error_None in En. apply Z.ltb_ge in E.
        specialize (H s idx (or_introl eq_refl)). lia.
Qed.

Lemma group_chunks_no_valid md hits : forall acc,
  (forall s idx, In (s, idx) hits -> idx < 0) ->
  group_chunks md hits acc = Some acc.
Proof.
  induction hits as [|[s idx] hits IH]; intros acc H; cbn [group_chunks].
  - reflexivity.
  - destruct (idx <? 0) eqn:E.
    + apply IH. intros s' i Hi. apply (H s' i). now right.
    + apply Z.ltb_ge in E. specialize (H s idx (or_introl eq_refl)). lia.
Qed.

Lemma get_text_out_of_range txts idx :
  idx < 0 \/ Z.of_nat (List.length txts) <= idx ->
  _get_text_by_index txts idx = "".
Proof.
  unfold _get_text_by_index. intros [H|H].
  - apply Z.leb_gt in H. now rewrite H.
  - apply Z.ltb_ge in H. now rewrite H, andb_false_r.
Qed.

Lemma build_skip txts mx c post : forall pre dc total,
  _get_text_by_index txts (faiss_index c) = "" ->
  build_doc_context txts mx (pre ++ c :: post) dc total =
  build_doc_context txts mx (pre ++ post) dc total.
Proof.
  induction pre as [|p pre IH]; intros dc total H;
    cbn [app build_doc_context].
  - now rewrite H.
  - destruct (truthy _); [|now apply IH].
    destruct (_ <? mx); [now apply IH | reflexivity].
Qed.

(** ** The length of the context *)

Lemma len_join_cons p ps :
  ps <> [] -> len (join nl (p :: ps)) = len p + 1 + len (join nl ps).
Proof.
  intros H. rewrite !len_join by congruence. cbn [sum_len List.length]. lia.
Qed.

Lemma len_section_of v :
  len (section_of v) =
  len (header (doc_id (v_doc v))) + sum_len (v_texts v)
  + 2 * Z.of_nat (List.length (v_texts v)).
Proof. unfold section_of. rewrite len_append, len_wrap_all. lia. Qed.

Lemma visits_bound txts mx docs : forall total,
  0 <= total ->
  filter emitted (visits txts mx docs total) <> [] ->
  len (join nl (map section_of (filter emitted (visits txts mx docs total))))
  + total
  < mx + 20 + header_slack (removelast (filter emitted (visits txts mx docs total))).
Proof.
  induction docs as [|d ds IH]; intros total Ht; cbn [visits filter];
    [congruence|].
  set (ts := appended txts mx (firstn 10 (matching_chunks d))
               (len (header (doc_id d))) total).
  set (v := mkVisit d total ts).
  assert (Hk : (List.length ts <= 10)%nat).
  { unfold ts. etransitivity; [apply appended_length|].
    rewrite length_firstn. lia. }
  pose proof (sum_len_nonneg ts) as Hs.
  pose proof (len_section_of v) as Hv. cbn [v v_doc v_texts] in Hv.
  destruct ts as [|t ts'] eqn:Ets.
  - (* nothing appended: the document leaves no section *)
    change (emitted v) with false. unfold v_end. cbn [v v_start v_texts sum_len].
    rewrite Z.add_0_r. destruct (mx <=? total); [cbn; congruence|].
    now apply IH.
  - change (emitted v) with true.
    assert (Hb : total + sum_len (t :: ts') + len (header (doc_id d)) < mx).
    { rewrite <- Ets. apply appended_budget. fold ts. rewrite Ets. congruence. }
    intros _.
    set (E' := filter emitted
                 (if mx <=? v_end v then [] else visits txts mx ds (v_end v))).
    destruct E' as [|e E''] eqn:EE.
    + cbn [map removelast header_slack join String.concat]. lia.
    + assert (HE : E' <> []) by (rewrite EE; congruence).
      rewrite <- EE. cbn [map].
      rewrite len_join_cons by (rewrite EE; cbn; congruence).
      replace (removelast (v :: E')) with (v :: removelast E')
        by (rewrite EE; reflexivity).
      cbn [header_slack v v_doc].
      unfold E' in *. destruct (mx <=? v_end v); [cbn in HE; congruence|].
      specialize (IH (v_end v)). unfold v_end in *. cbn [v v_start v_texts] in *.
      specialize (IH ltac:(lia) HE). cbn [List.length] in *. lia.
Qed.

(** ** Claims about the context budget *)

(** C1, as stated, fails: three documents ["a"], ["b"], ["c"] with one
    one-character chunk each and a budget of 25 give a context of 74
    characters, more than the budget plus the length (21) of any header. *)
Lemma C1_counterexample :
  exists r, search (plat := exact_libm) Fixture.inst "q" 30 5 25 = Some r /\
            context r <> "" /\
            len (context r) = 74 /\
            forall d, In d (top_documents r) -> 25 + len (header d) < len (context r).
Proof.
  eexists. split; [vm_compute; reflexivity|]. cbn [context top_documents].
  split; [discriminate|]. split; [reflexivity|].
  intros d [<-|[<-|[<-|[]]]]; vm_compute; reflexivity.
Qed.

(** C1 (amended): a non-empty context is shorter than the budget plus 20
    plus, for every section before the last one, the length of its header
    plus 21.  The running total counts chunk text only; headers and
    newlines of earlier sections are not charged to the budget. *)
Theorem C1_context_length {plat : Platform}
  self query top_k_chunks top_docs mx r :
  search self query top_k_chunks top_docs mx = Some r ->
  context r <> "" ->
  len (context r)
  < mx + 20
    + header_slack
        (removelast (included self (hits_of self query top_k_chunks) top_docs mx)).
Proof.
  unfold search. fold (hits_of self query top_k_chunks).
  intros H Hne. apply search_hits_inv in H. subst r. cbn [context] in *.
  unfold included, search_visits in *.
  pose proof (visits_bound (texts self) mx
                (selected self (hits_of self query top_k_chunks) top_docs) 0
                (Z.le_refl 0)) as B.
  destruct (filter emitted _) as [|e E] eqn:EE in B, Hne |- *.
  - cbn in Hne. congruence.
  - specialize (B ltac:(congruence)). lia.
Qed.

Lemma C1_witness :
  exists r, search (plat := exact_libm) Fixture.inst "q" 30 5 25 = Some r /\
            len (context r)
            < 25 + 20 + header_slack
                (removelast (included (plat := exact_libm) Fixture.inst
                               (hits_of Fixture.inst "q" 30) 5 25)).
Proof.
  eexists. split; [vm_compute; reflexivity|].
  apply (C1_context_length Fixture.inst "q" 30 5 25);
    [vm_compute; reflexivity | discriminate].
Defined.

(** C10: with a positive budget the running total is below the budget
    after every append and at the end of every iteration, the early exit is
    not taken, and every selected document is iterated: the loop computes
    what the same loop without the exit computes. *)
Theorem C10_total_below_budget {plat : Platform}
  self query top_k_chunks top_docs mx :
  0 < mx ->
  let docs := selected self (hits_of self query top_k_chunks) top_docs in
  let vs := search_visits self (hits_of self query top_k_chunks) top_docs mx in
  Forall (fun v => Forall (fun x => x < mx) (running (v_start v) (v_texts v))
                   /\ (mx <=? v_end v) = false) vs /\
  map v_doc vs = docs /\
  assemble (texts self) mx docs [] 0 = assemble_no_exit (texts self) mx docs [] 0.
Proof.
  intros Hmx docs vs.
  destruct (visits_all (texts self) mx docs 0 Hmx ltac:(lia)) as [Hd Hf].
  split; [|split].
  - eapply Forall_impl; [|exact Hf]. cbn beta. intros v [H1 H2].
    split; [assumption|]. apply Z.leb_gt. assumption.
  - exact Hd.
  - apply assemble_no_exit_eq; lia.
Qed.

Lemma C10_witness :
  map v_doc (search_visits (plat := exact_libm)
      Fixture.inst (hits_of Fixture.inst "q" 30) 5 25)
  = selected (plat := exact_libm) Fixture.inst (hits_of Fixture.inst "q" 30) 5.
Proof.
  apply (C10_total_below_budget Fixture.inst "q" 30 5 25). lia.
Defined.

(** ** Claims about the chunk loop *)

(** C5, as stated, fails for a chunk without text: the check holds (0 + 0 +
    21 < 100) and still nothing is appended, the section stays the bare
    header. *)
Lemma C5_counterexample :
  let c := mkChunk 0 7 0.5%float in
  let t := _get_text_by_index [] (faiss_index c) in
  0 + len t + len (header "a") < 100 /\
  build_doc_context [] 100 [c] (header "a") 0 = (header "a", 0) /\
  build_doc_context [] 100 [c] (header "a") 0
  <> build_doc_context [] 100 [] (header "a" ++ ((nl ++ t) ++ nl))%string
       (0 + len t).
Proof.
  cbv zeta. split; [vm_compute; reflexivity|].
  split; [reflexivity|]. vm_compute. discriminate.
Qed.

(** C5 (amended): a candidate chunk is reached with the state
    [(doc_context, total_chars)].  When its text is empty it is passed over
    without a check: the loop goes on to the chunks that follow with the
    state unchanged, whatever the budget.  When its text is not empty, the
    text is appended between two newlines and its length added to the
    running total exactly when [total_chars + len(chunk_text) +
    len(doc_context) < max_context_chars]; otherwise the loop ends with the
    state unchanged, whatever chunks follow. *)
Theorem C5_budget_check txts mx c rest dc total :
  let t := _get_text_by_index txts (faiss_index c) in
  (t = "" ->
   build_doc_context txts mx (c :: rest) dc total =
   build_doc_context txts mx rest dc total) /\
  (t <> "" ->
   (total + len t + len dc < mx ->
    build_doc_context txts mx (c :: rest) dc total =
    build_doc_context txts mx rest (dc ++ ((nl ++ t) ++ nl))%string
      (total + len t)) /\
   (~ total + len t + len dc < mx ->
    build_doc_context txts mx (c :: rest) dc total = (dc, total)) /\
   (build_doc_context txts mx (c :: rest) dc total = (dc, total) ->
    ~ total + len t + len dc < mx)).
Proof.
  intros t. split.
  - intros Ht. cbn [build_doc_context]. fold t. now rewrite Ht.
  - intros Ht. cbn [build_doc_context]. fold t.
    assert (Hy : truthy t = true) by (destruct t; [congruence | reflexivity]).
    rewrite Hy. split; [|split].
    + intros H. apply Z.ltb_lt in H. now rewrite H.
    + intros H. apply Z.ltb_nlt in H. now rewrite H.
    + destruct (_ <? mx) eqn:E; [|intros _; now apply Z.ltb_nlt].
      rewrite build_doc_context_spec. intros [= _ H2].
      match type of H2 with
      | context [sum_len ?l] => pose proof (sum_len_nonneg l)
      end.
      apply truthy_len in Hy. lia.
Qed.

Lemma C5_witness :
  build_doc_context ["xx"; "y"] 23
    [mkChunk 0 0 0.5%float; mkChunk 1 1 0.25%float] (header "a") 0
  = (header "a", 0) /\
  build_doc_context ["xx"; "y"] 100
    [mkChunk 2 7 0.5%float; mkChunk 1 1 0.25%float] (header "a") 0
  = build_doc_context ["xx"; "y"] 100 [mkChunk 1 1 0.25%float] (header "a") 0.
Proof.
  split.
  - refine (proj1 (proj2 (proj2 (C5_budget_check ["xx"; "y"] 23
                                   (mkChunk 0 0 0.5%float)
                                   [mkChunk 1 1 0.25%float] (header "a") 0)
                            _)) _).
    + discriminate.
    + vm_compute. discriminate.
  - refine (proj1 (C5_budget_check ["xx"; "y"] 100 (mkChunk 2 7 0.5%float)
                     [mkChunk 1 1 0.25%float] (header "a") 0) _).
    reflexivity.
Defined.

(** C9: an index outside the text table resolves to the empty string; a
    chunk with such an index leaves the chunk loop's result as it is
    without it; and no content of the text table makes a query raise. *)
Theorem C9_missing_text_skipped {plat : Platform} self idx :
  idx < 0 \/ Z.of_nat (List.length (texts self)) <= idx ->
  _get_text_by_index (texts self) idx = "" /\
  (forall mx c pre post dc total,
     faiss_index c = idx ->
     build_doc_context (texts self) mx (pre ++ c :: post) dc total =
     build_doc_context (texts self) mx (pre ++ post) dc total) /\
  (forall hits top_docs mx,
     (forall s i, In (s, i) hits -> i < Z.of_nat (List.length (metadata self))) ->
     search_hits self hits top_docs mx <> None).
Proof.
  intros H. pose proof (get_text_out_of_range _ _ H) as E.
  split; [exact E|]. split.
  - intros mx c pre post dc total <-. now apply build_skip.
  - intros hits top_docs mx Hin. unfold search_hits.
    pose proof (group_chunks_in_range (metadata self) hits [] Hin).
    destruct (group_chunks (metadata self) hits []); congruence.
Qed.

Lemma C9_witness :
  _get_text_by_index (texts Fixture.inst) 9 = "".
Proof.
  apply (C9_missing_text_skipped (plat := exact_libm) Fixture.inst 9).
  right. vm_compute. discriminate.
Defined.

(** C6: the context is the join of the sections of the iterations that
    appended at least one text; an iteration whose chunk loop returns the
    bare header leaves no section; every section in the context carries a
    non-empty text after its header; and a budget smaller than the length of
    the first candidate chunk leaves the document out. *)
Theorem C6_no_header_only_section {plat : Platform}
  self query top_k_chunks top_docs mx r :
  search self query top_k_chunks top_docs mx = Some r ->
  let hits := hits_of self query top_k_chunks in
  context r = join nl (map section_of (included self hits top_docs mx)) /\
  (forall v, In v (search_visits self hits top_docs mx) ->
     fst (build_doc_context (texts self) mx
            (firstn 10 (matching_chunks (v_doc v)))
            (header (doc_id (v_doc v))) (v_start v))
     = header (doc_id (v_doc v)) ->
     ~ In v (included self hits top_docs mx)) /\
  (forall v, In v (included self hits top_docs mx) ->
     exists t ts, t <> "" /\
       section_of v
       = (header (doc_id (v_doc v)) ++ ((nl ++ t) ++ nl) ++ wrap_all ts)%string) /\
  (forall v c cs, In v (search_visits self hits top_docs mx) ->
     matching_chunks (v_doc v) = c :: cs ->
     mx < len (_get_text_by_index (texts self) (faiss_index c)) ->
     ~ In v (included self hits top_docs mx)).
Proof.
  intros H hits. unfold search in H. fold (hits_of self query top_k_chunks) in H.
  fold hits in H. apply search_hits_inv in H. subst r. cbn [context].
  split; [reflexivity|]. unfold included. split; [|split].
  - intros v Hv Hb Hin. apply filter_In in Hin. destruct Hin as [_ He].
    unfold search_visits in Hv. rewrite (visits_build _ _ _ _ _ Hv) in Hb.
    cbn [fst] in Hb. pose proof (emitted_header_len v) as E.
    rewrite Hb, He in E. apply Z.ltb_lt in E. lia.
  - intros v Hin. apply filter_In in Hin. destruct Hin as [Hv He].
    unfold emitted in He. unfold section_of.
    destruct (v_texts v) as [|t ts] eqn:Et; [discriminate|].
    exists t, ts. split.
    + unfold search_visits in Hv. pose proof (visits_texts _ _ _ _ _ Hv) as Ha.
      pose proof (appended_truthy (texts self) mx
                    (firstn 10 (matching_chunks (v_doc v)))
                    (len (header (doc_id (v_doc v)))) (v_start v)) as F.
      rewrite <- Ha, Et in F. inversion F as [|? ? Ht _]; subst.
      destruct t; [discriminate | congruence].
    + now rewrite wrap_all_cons.
  - intros v c cs Hv Hm Hlt Hin. apply filter_In in Hin. destruct Hin as [_ He].
    unfold search_visits in Hv. pose proof (visits_texts _ _ _ _ _ Hv) as Ha.
    pose proof (visits_start _ _ _ _ _ Hv) as Hs.
    unfold emitted in He. rewrite Ha, Hm in He. cbn [firstn appended] in He.
    set (t := _get_text_by_index (texts self) (faiss_index c)) in *.
    pose proof (len_nonneg (header (doc_id (v_doc v)))) as Hh.
    destruct (truthy t) eqn:Ey.
    + destruct (_ <? mx) eqn:E; [|discriminate]. apply Z.ltb_lt in E. lia.
    + apply truthy_false in Ey. rewrite Ey in Hlt. change (len "") with 0 in Hlt.
      rewrite appended_exhausted in He by lia. discriminate.
Qed.

Lemma C6_witness :
  exists r, search (plat := exact_libm) Fixture.inst "q" 30 5 25 = Some r /\
    context r = join nl (map section_of
                  (included (plat := exact_libm)
                      Fixture.inst (hits_of Fixture.inst "q" 30) 5 25)).
Proof.
  eexists. split; [vm_compute; reflexivity|].
  apply (C6_no_header_only_section Fixture.inst "q" 30 5 25).
  vm_compute. reflexivity.
Defined.

(** ** Claims about the result *)

(** C8: when every returned index is negative, [search] returns the empty
    context and no documents, and does not raise. *)
Theorem C8_no_valid_hits {plat : Platform} self query top_k_chunks top_docs mx :
  (forall s idx, In (s, idx) (hits_of self query top_k_chunks) -> idx < 0) ->
  search self query top_k_chunks top_docs mx = Some (mkSearchResult "" [] [] 0).
Proof.
  intros H. unfold search, search_hits. fold (hits_of self query top_k_chunks).
  rewrite (group_chunks_no_valid _ _ [] H).
  unfold ranked, score_docs, slice_to. cbn [map sort_by fold_right List.length].
  rewrite !firstn_nil. destruct (top_docs <? 0); reflexivity.
Qed.

Lemma C8_witness :
  search (plat := exact_libm) (mkTwoStageSearch
            (mkFaissIndex 4 (fun _ _ => [(0.5%float, -1); (0.25%float, -1)]))
            Fixture.md Fixture.tx) "q" 2 5 12000
  = Some (mkSearchResult "" [] [] 0).
Proof.
  apply C8_no_valid_hits. intros s idx [[= _ <-]|[[= _ <-]|[]]]; lia.
Defined.

(** C4, as stated, fails: with a budget of 5 no section is emitted, the
    context is empty, and [top_documents] still lists the three selected
    documents. *)
Lemma C4_counterexample :
  exists r, search (plat := exact_libm) Fixture.inst "q" 30 5 5 = Some r /\
            context r = "" /\
            included (plat := exact_libm)
                Fixture.inst (hits_of Fixture.inst "q" 30) 5 5 = [] /\
            top_documents r = ["a"; "b"; "c"].
Proof.
  eexists. split; [vm_compute; reflexivity|]. cbn [context top_documents].
  split; [reflexivity|]. split; vm_compute; reflexivity.
Qed.

(** C4 (amended): [top_documents] lists the identifiers of the selected
    documents, in rank order, whether or not a section of theirs is in the
    context; the context is the join of the sections of the included
    documents, which are among the selected ones, in the same order. *)
Theorem C4_top_documents {plat : Platform}
  self query top_k_chunks top_docs mx r :
  search self query top_k_chunks top_docs mx = Some r ->
  let hits := hits_of self query top_k_chunks in
  top_documents r = map doc_id (selected self hits top_docs) /\
  context r = join nl (map section_of (included self hits top_docs mx)) /\
  (exists rest, selected self hits top_docs
                = map v_doc (search_visits self hits top_docs mx) ++ rest) /\
  (forall v, In v (included self hits top_docs mx) ->
             In (doc_id (v_doc v)) (top_documents r)).
Proof.
  intros H hits. unfold search in H. fold (hits_of self query top_k_chunks) in H.
  fold hits in H. apply search_hits_inv in H. subst r.
  cbn [context top_documents].
  split; [reflexivity|]. split; [reflexivity|].
  pose proof (visits_prefix (texts self) mx (selected self hits top_docs) 0)
    as [rest E].
  split; [now exists rest|].
  intros v Hin. apply filter_In in Hin. destruct Hin as [Hv _].
  unfold search_visits in Hv. rewrite E at 1. rewrite map_app. apply in_or_app.
  left. rewrite map_map. apply (in_map (fun x => doc_id (v_doc x))), Hv.
Qed.

Lemma C4_witness :
  exists r, search (plat := exact_libm) Fixture.inst "q" 30 5 25 = Some r /\
    top_documents r
    = map doc_id (selected (plat := exact_libm)
        Fixture.inst (hits_of Fixture.inst "q" 30) 5).
Proof.
  eexists. split; [vm_compute; reflexivity|].
  apply (C4_top_documents Fixture.inst "q" 30 5 25). vm_compute. reflexivity.
Defined.

(** ** Claims about loading *)

(** C3, as stated, fails: an index of three vectors, a metadata table of
    one entry and an empty text table load into an instance. *)
Lemma C3_counterexample :
  let d := mkIndexDir (Some (mkFaissIndex 3 (fun _ _ => [])))
                      (Some [mkMeta "a" 0]) (Some []) in
  exists inst, _load d = Some inst /\
    ntotal (index inst) <> Z.of_nat (List.length (metadata inst)) /\
    List.length (metadata inst) <> List.length (texts inst).
Proof.
  cbv zeta. eexists. split; [reflexivity|]. cbn. split; [lia | discriminate].
Qed.

(** C3 (amended): loading fails exactly when one of the three files cannot
    be read; when all three are read the instance holds them as they are,
    whatever their sizes. *)
Theorem C3_load d :
  (_load d = None <->
   index_faiss d = None \/ metadata_pkl d = None \/ texts_pkl d = None) /\
  (forall ix md tx,
     index_faiss d = Some ix -> metadata_pkl d = Some md ->
     texts_pkl d = Some tx ->
     _load d = Some (mkTwoStageSearch ix md tx)).
Proof.
  unfold _load. split.
  - destruct (index_faiss d), (metadata_pkl d), (texts_pkl d);
      split; intros H; try discriminate; try tauto;
      destruct H as [H|[H|H]]; discriminate.
  - intros ix md tx -> -> ->. reflexivity.
Qed.

Lemma C3_witness :
  _load (mkIndexDir (Some (mkFaissIndex 3 (fun _ _ => [])))
                    (Some [mkMeta "a" 0]) (Some []))
  = Some (mkTwoStageSearch (mkFaissIndex 3 (fun _ _ => [])) [mkMeta "a" 0] []).
Proof.
  apply (proj2 (C3_load (mkIndexDir (Some (mkFaissIndex 3 (fun _ _ => [])))
                                    (Some [mkMeta "a" 0]) (Some []))));
    reflexivity.
Defined.

(** ** The order of binary64 numbers *)

Lemma SFcompare_rank x y :
  SFcompare x y =
  if sf_nan x || sf_nan y then None
  else Some (lex_compare (sf_rank x) (sf_rank y)).
Proof.
  destruct x as [[|]|[|]| |[|] m1 e1], y as [[|]|[|]| |[|] m2 e2];
    try reflexivity; cbn [SFcompare sf_nan orb sf_rank]; f_equal;
    unfold lex_compare; cbn [fst snd].
  rewrite Z.compare_opp, (Z.compare_antisym e1 e2).
  destruct (e1 ?= e2); reflexivity.
Qed.

Lemma lex_compare_Lt a b : lex_compare a b = Lt <-> lex_lt a b.
Proof.
  unfold lex_compare, lex_lt.
  destruct (Z.compare_spec (fst a) (fst b));
    destruct (Z.compare_spec (fst (snd a)) (fst (snd b)));
    destruct (Z.compare_spec (snd (snd a)) (snd (snd b)));
    split; intros; try discriminate; try reflexivity; lia.
Qed.

Lemma lex_compare_Eq a b : lex_compare a b = Eq <-> a = b.
Proof.
  unfold lex_compare. destruct a as [a1 [a2 a3]], b as [b1 [b2 b3]].
  cbn [fst snd].
  destruct (Z.compare_spec a1 b1); destruct (Z.compare_spec a2 b2);
    destruct (Z.compare_spec a3 b3);
    split; intros H'; try discriminate; try reflexivity;
    try (injection H'; intros; lia); subst; reflexivity.
Qed.

Lemma lex_compare_Gt a b : lex_compare a b = Gt <-> lex_lt b a.
Proof.
  unfold lex_compare, lex_lt.
  destruct (Z.compare_spec (fst a) (fst b));
    destruct (Z.compare_spec (fst (snd a)) (fst (snd b)));
    destruct (Z.compare_spec (snd (snd a)) (snd (snd b)));
    split; intros; try discriminate; try reflexivity; lia.
Qed.

Lemma is_nan_spec x : is_nan x = sf_nan (Prim2SF x).
Proof.
  unfold is_nan. rewrite FloatAxioms.eqb_spec. unfold SFeqb.
  rewrite SFcompare_rank.
  destruct (Prim2SF x) as [[|]|[|]| |[|] m e]; try reflexivity;
    cbn [sf_nan orb negb];
    rewrite (proj2 (lex_compare_Eq _ _) eq_refl); reflexivity.
Qed.

Lemma compare_rank x y :
  is_nan x = false -> is_nan y = false ->
  SFcompare (Prim2SF x) (Prim2SF y) = Some (lex_compare (rank x) (rank y)).
Proof.
  rewrite !is_nan_spec, SFcompare_rank. now intros -> ->.
Qed.

Lemma compare_nan x y :
  is_nan x = true \/ is_nan y = true ->
  SFcompare (Prim2SF x) (Prim2SF y) = None.
Proof.
  rewrite !is_nan_spec, SFcompare_rank.
  intros [->| ->]; [reflexivity | now rewrite orb_true_r].
Qed.

Lemma ltb_rank x y :
  (x <? y)%float = true <->
  is_nan x = false /\ is_nan y = false /\ lex_lt (rank x) (rank y).
Proof.
  rewrite FloatAxioms.ltb_spec. unfold SFltb.
  destruct (is_nan x) eqn:Ex; [|destruct (is_nan y) eqn:Ey].
  - rewrite compare_nan by tauto. split; [discriminate | intros (?&_); discriminate].
  - rewrite compare_nan by tauto. split; [discriminate | intros (_&?&_); discriminate].
  - rewrite compare_rank by assumption. rewrite <- lex_compare_Lt.
    destruct (lex_compare _ _); split; intros H; try discriminate; try tauto;
      destruct H as (_&_&?); discriminate.
Qed.

Lemma leb_rank x y :
  (x <=? y)%float = true <->
  is_nan x = false /\ is_nan y = false /\ ~ lex_lt (rank y) (rank x).
Proof.
  rewrite FloatAxioms.leb_spec. unfold SFleb.
  destruct (is_nan x) eqn:Ex; [|destruct (is_nan y) eqn:Ey].
  - rewrite compare_nan by tauto. split; [discriminate | intros (?&_); discriminate].
  - rewrite compare_nan by tauto. split; [discriminate | intros (_&?&_); discriminate].
  - rewrite compare_rank by assumption. rewrite <- lex_compare_Gt.
    destruct (lex_compare _ _); split; intros H; try discriminate;
      try (repeat split; congruence); try reflexivity.
    destruct H as (_&_&H). now elim H.
Qed.

Lemma eqb_rank x y :
  (x =? y)%float = true <->
  is_nan x = false /\ is_nan y = false /\ rank x = rank y.
Proof.
  rewrite FloatAxioms.eqb_spec. unfold SFeqb.
  destruct (is_nan x) eqn:Ex; [|destruct (is_nan y) eqn:Ey].
  - rewrite compare_nan by tauto. split; [discriminate | intros (?&_); discriminate].
  - rewrite compare_nan by tauto. split; [discriminate | intros (_&?&_); discriminate].
  - rewrite compare_rank by assumption. rewrite <- lex_compare_Eq.
    destruct (lex_compare _ _); split; intros H; try discriminate; try tauto;
      destruct H as (_&_&?); discriminate.
Qed.

Lemma ltb_false_rank x y :
  is_nan x = false -> is_nan y = false ->
  ((x <? y)%float = false <-> ~ lex_lt (rank x) (rank y)).
Proof.
  intros Hx Hy. pose proof (ltb_rank x y) as H.
  destruct (x <? y)%float; split; intros H0; try discriminate; try reflexivity.
  - exfalso. apply H0. now apply H.
  - intros L. assert (false = true) by (apply H; tauto). discriminate.
Qed.

Lemma ltb_irrefl x : (x <? x)%float = false.
Proof.
  destruct (x <? x)%float eqn:E; [|reflexivity].
  apply ltb_rank in E. destruct E as (_&_&L). unfold lex_lt in L. lia.
Qed.

Lemma ltb_trans x y z :
  (x <? y)%float = true -> (y <? z)%float = true -> (x <? z)%float = true.
Proof.
  rewrite !ltb_rank. unfold lex_lt. intros (?&?&?) (?&?&?).
  repeat split; try assumption. lia.
Qed.

Lemma ltb_not_leb x y : (x <? y)%float = true -> (y <=? x)%float = false.
Proof.
  intros H. destruct (y <=? x)%float eqn:E; [|reflexivity].
  apply ltb_rank in H. apply leb_rank in E. tauto.
Qed.

Lemma opp_rank x :
  rank (- x)%float =
  (- fst (rank x), (- fst (snd (rank x)), - snd (snd (rank x)))).
Proof.
  unfold rank. rewrite FloatAxioms.opp_spec.
  destruct (Prim2SF x) as [[|]|[|]| |[|] m e];
    cbn [SFopp negb sf_rank fst snd]; try reflexivity.
  now rewrite Z.opp_involutive.
Qed.

Lemma is_nan_opp x : is_nan (- x)%float = is_nan x.
Proof.
  rewrite !is_nan_spec, FloatAxioms.opp_spec.
  now destruct (Prim2SF x) as [[|]|[|]| |[|] m e].
Qed.

Lemma ltb_opp x y : (- x <? - y)%float = (y <? x)%float.
Proof.
  destruct (y <? x)%float eqn:E.
  - apply ltb_rank in E. destruct E as (Hy&Hx&L). apply ltb_rank.
    rewrite !is_nan_opp, !opp_rank. repeat split; try assumption.
    unfold lex_lt in *. cbn [fst snd]. lia.
  - destruct (- x <? - y)%float eqn:E'; [|reflexivity].
    apply ltb_rank in E'. rewrite !is_nan_opp, !opp_rank in E'.
    destruct E' as (Hx&Hy&L).
    apply (ltb_false_rank y x Hy Hx) in E. exfalso. apply E.
    unfold lex_lt in *. cbn [fst snd] in L. lia.
Qed.

(** On numbers that are not NaN, "not smaller" is transitive. *)
Lemma ltb_neg_trans x y z :
  is_nan x = false -> is_nan y = false -> is_nan z = false ->
  (y <? x)%float = false -> (z <? y)%float = false -> (z <? x)%float = false.
Proof.
  intros Hx Hy Hz. rewrite !ltb_false_rank by assumption.
  unfold lex_lt. lia.
Qed.

Lemma ltb_false_leb x y :
  is_nan x = false -> is_nan y = false ->
  (x <? y)%float = false -> (y <=? x)%float = true.
Proof.
  intros Hx Hy H. apply leb_rank. repeat split; try assumption.
  now apply ltb_false_rank.
Qed.

Lemma eqb_tie x y s :
  (x =? s)%float = true -> (y =? s)%float = true -> (y <? x)%float = false.
Proof.
  rewrite !eqb_rank. intros (Hx&_&Ex) (Hy&_&Ey).
  apply ltb_false_rank; try assumption. rewrite Ex, Ey. unfold lex_lt. lia.
Qed.

(** ** Two facts of binary64 arithmetic *)

Lemma Prim2SF_one : Prim2SF one = S754_finite false 4503599627370496 (-52).
Proof. reflexivity. Qed.

Lemma div_eucl_shift m k :
  0 <= k ->
  Z.div_eucl (Z.shiftl (Z.pos m) (52 + k)) 4503599627370496
  = (Z.pos m * 2 ^ k, 0).
Proof.
  intros Hk. rewrite Z.shiftl_mul_pow2, Z.pow_add_r by lia.
  change (2 ^ 52) with 4503599627370496.
  pose proof (Z.div_eucl_eq (Z.pos m * (4503599627370496 * 2 ^ k))
                4503599627370496 ltac:(lia)) as Q.
  pose proof (Z.mod_pos_bound (Z.pos m * (4503599627370496 * 2 ^ k))
                4503599627370496 ltac:(lia)) as B.
  unfold Z.modulo in B. destruct (Z.div_eucl _ _) as [q r].
  assert (r = 0 /\ q = Z.pos m * 2 ^ k) as [-> ->] by nia. reflexivity.
Qed.

(** Dividing a binary64 number by [1.0] is exact. *)
Lemma SFdiv_one s m e :
  bounded prec emax m e = true ->
  SF64div (S754_finite s m e) (S754_finite false 4503599627370496 (-52))
  = S754_finite s m e.
Proof.
  unfold bounded, canonical_mantissa, SF64div, SFdiv. intros H.
  apply andb_prop in H. destruct H as [Hc He].
  apply Z.eqb_eq in Hc. unfold fexp, emin in Hc.
  change prec with 53 in *. change emax with 1024 in *.
  change (1024 - 53) with 971 in *.
  set (d := Z.pos (digits2_pos m)) in *.
  assert (Hd : 0 < d) by (unfold d; lia).
  rewrite xorb_false_r. unfold SFdiv_core_binary. cbn [Zdigits2]. fold d.
  change (Z.pos (digits2_pos 4503599627370496)) with 53.
  destruct (Z.eq_dec e (-1074)) as [Ee|Ne].
  - (* the smallest exponent: the quotient needs no rounding shift *)
    replace (Z.min (fexp 53 1024 (d + e - (53 + -52))) (e - -52)) with e
      by (unfold fexp, emin; lia).
    replace (e - -52 - e) with 52 by lia.
    pose proof (div_eucl_shift m 0 (Z.le_refl 0)) as Q.
    change (52 + 0) with 52 in Q. rewrite Q, Z.mul_1_r.
    change (new_location 4503599627370496 0) with loc_Exact.
    unfold binary_round_aux, shr_fexp. cbn [Zdigits2 shr_record_of_loc]. fold d.
    replace (fexp 53 1024 (d + e) - e) with 0 by (unfold fexp, emin; lia).
    cbn [shr shr_m loc_of_shr_record round_nearest_even Zdigits2]. fold d.
    replace (fexp 53 1024 (d + e) - e) with 0 by (unfold fexp, emin; lia).
    cbn [shr shr_m]. change (1024 - 53) with 971. now rewrite He.
  - (* a normal number: the quotient has one bit more, shifted out again *)
    assert (Hd53 : d = 53) by lia.
    replace (Z.min (fexp 53 1024 (d + e - (53 + -52))) (e - -52)) with (e - 1)
      by (unfold fexp, emin; lia).
    replace (e - -52 - (e - 1)) with 53 by lia.
    pose proof (div_eucl_shift m 1 ltac:(lia)) as Q.
    change (52 + 1) with 53 in Q. rewrite Q.
    replace (Z.pos m * 2 ^ 1) with (Z.pos (xO m)) by (change (2 ^ 1) with 2; lia).
    change (new_location 4503599627370496 0) with loc_Exact.
    unfold binary_round_aux, shr_fexp.
    cbn [Zdigits2 shr_record_of_loc digits2_pos].
    rewrite Pos2Z.inj_succ. fold d.
    replace (fexp 53 1024 (Z.succ d + (e - 1)) - (e - 1)) with 1
      by (unfold fexp, emin; lia).
    cbn [shr iter_pos shr_1 orb shr_m loc_of_shr_record round_nearest_even
         Zdigits2]. fold d.
    replace (e - 1 + 1) with e by lia.
    replace (fexp 53 1024 (d + e) - e) with 0 by (unfold fexp, emin; lia).
    cbn [shr shr_m]. change (1024 - 53) with 971. now rewrite He.
Qed.

Lemma div_one (x : float) : (x / one)%float = x.
Proof.
  apply Prim2SF_inj. rewrite FloatAxioms.div_spec, Prim2SF_one.
  pose proof (Prim2SF_valid x) as V.
  destruct (Prim2SF x) as [s|s| |s m e]; try reflexivity.
  - cbn. now destruct s.
  - cbn. now destruct s.
  - now apply SFdiv_one.
Qed.

(** Adding a number to [0.0] gives the number, except that [0.0 + -0.0]
    is [0.0]. *)
Lemma add_zero_l (x : float) :
  x <> neg_zero -> (zero + x)%float = x.
Proof.
  intros H. apply Prim2SF_inj.
  rewrite FloatAxioms.add_spec. change (Prim2SF zero) with (S754_zero false).
  destruct (Prim2SF x) as [s|s| |s m e] eqn:E; try reflexivity.
  destruct s; [|reflexivity]. exfalso. apply H. apply Prim2SF_inj.
  rewrite E. reflexivity.
Qed.

(** ** The stable sort *)

Section StableSortFacts.
Context {A : Type} (key : A -> float).

Lemma insert_by_perm x l : Permutation (insert_by key x l) (x :: l).
Proof.
  induction l as [|y l IH]; cbn [insert_by]; [reflexivity|].
  destruct (key y <? key x)%float; [|reflexivity].
  rewrite IH. apply perm_swap.
Qed.

Lemma sort_by_perm l : Permutation (sort_by key l) l.
Proof.
  induction l as [|x l IH]; cbn [sort_by fold_right]; [reflexivity|].
  fold (sort_by key l). rewrite insert_by_perm. now constructor.
Qed.

Lemma insert_by_sorted x l :
  is_nan (key x) = false ->
  Forall (fun a => is_nan (key a) = false) l ->
  StronglySorted (before key) l ->
  StronglySorted (before key) (insert_by key x l).
Proof.
  intros Hx Hl Hs. induction Hs as [|y l Hs IH Hy]; cbn [insert_by].
  - repeat constructor.
  - inversion Hl as [|? ? Hny Hl']; subst.
    destruct (key y <? key x)%float eqn:E.
    + constructor; [now apply IH|].
      apply (Permutation_Forall (Permutation_sym (insert_by_perm x l))).
      constructor; [|assumption]. unfold before.
      destruct (key x <? key y)%float eqn:E'; [|reflexivity].
      pose proof (ltb_trans _ _ _ E E') as C. rewrite ltb_irrefl in C.
      discriminate.
    + constructor; [now constructor|]. constructor; [exact E|].
      rewrite Forall_forall in Hy, Hl' |- *. intros z Hz. unfold before.
      apply (ltb_neg_trans (key x) (key y) (key z));
        auto. now apply Hy.
Qed.

Lemma sort_by_sorted l :
  Forall (fun a => is_nan (key a) = false) l ->
  StronglySorted (before key) (sort_by key l).
Proof.
  induction l as [|x l IH]; intros H; cbn [sort_by fold_right];
    [constructor|]. fold (sort_by key l).
  inversion H; subst. apply insert_by_sorted; [assumption| |now apply IH].
  now apply (Permutation_Forall (Permutation_sym (sort_by_perm l))).
Qed.

(** Elements that never pass one another keep their order. *)
Lemma insert_by_filter (p : A -> bool) x l :
  (forall y, p x = true -> p y = true -> (key y <? key x)%float = false) ->
  filter p (insert_by key x l) = filter p (x :: l).
Proof.
  intros H. induction l as [|y l IH]; cbn [insert_by]; [reflexivity|].
  destruct (key y <? key x)%float eqn:E; [|reflexivity].
  cbn [filter] in *. rewrite IH.
  destruct (p x) eqn:Px, (p y) eqn:Py; try reflexivity.
  rewrite (H y eq_refl Py) in E. discriminate.
Qed.

Lemma sort_by_filter (p : A -> bool) l :
  (forall x y, p x = true -> p y = true -> (key y <? key x)%float = false) ->
  filter p (sort_by key l) = filter p l.
Proof.
  intros H. induction l as [|x l IH]; cbn [sort_by fold_right];
    [reflexivity|]. fold (sort_by key l).
  rewrite insert_by_filter by (intros y; apply H).
  cbn [filter]. now rewrite IH.
Qed.
End StableSortFacts.

(** ** Grouping *)

Lemma lookup_dict_append d k c k' :
  lookup (dict_append d k c) k' =
  if String.eqb k k' then lookup d k' ++ [c] else lookup d k'.
Proof.
  induction d as [|[k0 cs] d IH]; cbn [dict_append lookup].
  - now destruct (String.eqb k k').
  - destruct (String.eqb k0 k) eqn:E0; cbn [lookup].
    + apply String.eqb_eq in E0. subst k0.
      now destruct (String.eqb k k').
    + rewrite IH. destruct (String.eqb k k') eqn:E; [|reflexivity].
      apply String.eqb_eq in E. subst k'. now rewrite E0.
Qed.

Lemma keys_dict_append d k c k' :
  In k' (map fst (dict_append d k c)) <-> k' = k \/ In k' (map fst d).
Proof.
  induction d as [|[k0 cs] d IH]; cbn [dict_append map fst In].
  - intuition congruence.
  - destruct (String.eqb k0 k) eqn:E0; cbn [map fst In].
    + apply String.eqb_eq in E0. subst k0. intuition congruence.
    + rewrite IH. intuition congruence.
Qed.

Lemma NoDup_dict_append d k c :
  NoDup (map fst d) -> NoDup (map fst (dict_append d k c)).
Proof.
  induction d as [|[k0 cs] d IH]; cbn [dict_append map fst]; intros H.
  - repeat constructor. intros [].
  - inversion H as [|? ? Hn Hd]; subst.
    destruct (String.eqb k0 k) eqn:E0; cbn [map fst].
    + now constructor.
    + constructor; [|now apply IH]. rewrite keys_dict_append.
      apply String.eqb_neq in E0. intuition congruence.
Qed.

Lemma nonempty_dict_append d k c :
  Forall (fun kv => snd kv <> []) d ->
  Forall (fun kv => snd kv <> []) (dict_append d k c).
Proof.
  induction d as [|[k0 cs] d IH]; cbn [dict_append]; intros H.
  - repeat constructor. cbn. congruence.
  - inversion H; subst. destruct (String.eqb k0 k).
    + constructor; [|assumption]. cbn. now destruct cs.
    + constructor; [assumption | now apply IH].
Qed.

Lemma lookup_In d k cs :
  NoDup (map fst d) -> In (k, cs) d -> lookup d k = cs.
Proof.
  induction d as [|[k0 cs0] d IH]; cbn [map fst lookup In]; [tauto|].
  intros H [E|Hin].
  - injection E as -> ->. now rewrite String.eqb_refl.
  - inversion H as [|? ? Hn Hd]; subst.
    destruct (String.eqb k0 k) eqn:E0; [|now apply IH].
    apply String.eqb_eq in E0. subst k0. exfalso. apply Hn.
    apply (in_map fst) in Hin. exact Hin.
Qed.

Lemma group_chunks_spec md hits : forall acc g,
  group_chunks md hits acc = Some g ->
  (forall k, map score (lookup g k)
             = map score (lookup acc k) ++ hit_scores md hits k) /\
  (NoDup (map fst acc) -> NoDup (map fst g)) /\
  (Forall (fun kv => snd kv <> []) acc -> Forall (fun kv => snd kv <> []) g).
Proof.
  induction hits as [|[s idx] hits IH]; intros acc g;
    cbn [group_chunks hit_scores].
  - intros [= <-]. split; [|tauto]. intros k. now rewrite app_nil_r.
  - destruct (idx <? 0); [apply IH|].
    destruct (nth_error md (Z.to_nat idx)) as [meta|]; [|discriminate].
    intros H. apply IH in H. destruct H as (H1 & H2 & H3). split; [|split].
    + intros k. rewrite H1, lookup_dict_append.
      destruct (String.eqb (meta_doc_id meta) k); [|reflexivity].
      rewrite map_app, <- app_assoc. reflexivity.
    + intros Hn. apply H2. now apply NoDup_dict_append.
    + intros Hf. apply H3. now apply nonempty_dict_append.
Qed.

Lemma In_firstn {A} (n : nat) (l : list A) x : In x (firstn n l) -> In x l.
Proof.
  intros H. rewrite <- (firstn_skipn n l). apply in_or_app. now left.
Qed.

Lemma slice_to_In {A} (k : Z) (l : list A) x : In x (slice_to k l) -> In x l.
Proof.
  unfold slice_to. destruct (k <? 0); apply In_firstn.
Qed.

Lemma aggregate_formula {plat : Platform} cs :
  aggregate cs
  = (py_sum (map score cs) / pow_half_of (List.length (map score cs)))%float.
Proof. unfold aggregate, sum_scores. now rewrite length_map. Qed.

Lemma py_sum_plain {plat : Platform} xs :
  compensated_sum = false -> py_sum xs = fold_left PrimFloat.add xs zero.
Proof.
  intros H. destruct xs as [|x xs]; [reflexivity|].
  unfold py_sum. now rewrite H.
Qed.

Lemma py_sum_single {plat : Platform} x : py_sum [x] = (zero + x)%float.
Proof.
  unfold py_sum. destruct compensated_sum; reflexivity.
Qed.

(** The two summations differ from three items on.  Ten times [0.1] add up
    to [1.0] with the compensation and to the double below it without;
    and the compensation keeps two addends that the plain sum rounds
    away. *)
Example py_sum_tenths :
  py_sum (plat := exact_libm_compensated)
    (repeat 0x1.999999999999ap-4%float 10) = one /\
  py_sum (plat := exact_libm)
    (repeat 0x1.999999999999ap-4%float 10) = 0x1.fffffffffffffp-1%float.
Proof. split; vm_compute; reflexivity. Qed.

Example py_sum_small_addends :
  py_sum (plat := exact_libm_compensated) [one; 0x1p-53; 0x1p-53]%float
  = 0x1.0000000000001p+0%float /\
  py_sum (plat := exact_libm) [one; 0x1p-53; 0x1p-53]%float = one.
Proof. split; vm_compute; reflexivity. Qed.

Lemma eqb_one x : (x =? one)%float = true -> x = one.
Proof.
  rewrite FloatAxioms.eqb_spec. intros H. apply Prim2SF_inj.
  change (Prim2SF one) with (S754_finite false 4503599627370496 (-52)) in *.
  unfold SFeqb, SFcompare in H.
  destruct (Prim2SF x) as [s|s| |s m e]; try discriminate;
    destruct s; try discriminate.
  destruct (Z.compare_spec e (-52)) as [He| |]; try discriminate.
  destruct (Pos.compare_cont Eq m 4503599627370496) eqn:E; try discriminate.
  apply (Pos.compare_eq m 4503599627370496) in E. now subst.
Qed.

Lemma lookup_nonempty_In d k : lookup d k <> [] -> In (k, lookup d k) d.
Proof.
  induction d as [|[k0 cs] d IH]; cbn [lookup In]; [congruence|].
  destruct (String.eqb k0 k) eqn:E.
  - apply String.eqb_eq in E. subst k0. now left.
  - intros H. right. now apply IH.
Qed.

(** Every document of the aggregation step carries the scores of its
    surviving hits, and every document with a surviving hit is one. *)
Lemma score_docs_scores {plat : Platform} md hits g :
  group_chunks md hits [] = Some g ->
  (forall x, In x (score_docs g) ->
     hit_scores md hits (doc_id x) <> [] /\
     doc_score x
     = (py_sum (hit_scores md hits (doc_id x))
        / pow_half_of (List.length (hit_scores md hits (doc_id x))))%float /\
     List.length (matching_chunks x)
     = List.length (hit_scores md hits (doc_id x))) /\
  (forall d, hit_scores md hits d <> [] ->
     exists x, In x (score_docs g) /\ doc_id x = d).
Proof.
  intros G. destruct (group_chunks_spec _ _ _ _ G) as (H1 & H2 & H3).
  specialize (H2 (NoDup_nil _)). specialize (H3 (Forall_nil _)).
  split.
  - intros x Hx. unfold score_docs in Hx. apply in_map_iff in Hx.
    destruct Hx as ([k cs] & <- & Hin).
    cbn [fst snd doc_id doc_score matching_chunks].
    specialize (H1 k). cbn [lookup map app] in H1.
    rewrite (lookup_In g k cs H2 Hin) in H1.
    rewrite Forall_forall in H3. specialize (H3 _ Hin). cbn [snd] in H3.
    rewrite <- H1. split; [|split].
    + destruct cs; [congruence | discriminate].
    + apply aggregate_formula.
    + rewrite (Permutation_length (sort_by_perm _ cs)). now rewrite length_map.
  - intros d Hd. specialize (H1 d). cbn [lookup map app] in H1.
    assert (Hl : lookup g d <> []).
    { intros E. rewrite E in H1. cbn [map] in H1. congruence. }
    exists (mkDocScore d (aggregate (lookup g d))
              (sort_by (fun x => (- score x)%float) (lookup g d))).
    split; [|reflexivity]. unfold score_docs.
    apply in_map_iff. exists (d, lookup g d). split; [reflexivity|].
    now apply lookup_nonempty_In.
Qed.

(** Every selected document carries the scores of its surviving hits. *)
Lemma selected_scores {plat : Platform} self hits top_docs x :
  In x (selected self hits top_docs) ->
  hit_scores (metadata self) hits (doc_id x) <> [] /\
  doc_score x
  = (py_sum (hit_scores (metadata self) hits (doc_id x))
     / pow_half_of
         (List.length (hit_scores (metadata self) hits (doc_id x))))%float /\
  List.length (matching_chunks x)
  = List.length (hit_scores (metadata self) hits (doc_id x)).
Proof.
  unfold selected.
  destruct (group_chunks (metadata self) hits []) as [g|] eqn:G; [|intros []].
  intros H. apply slice_to_In in H. unfold ranked in H.
  apply (Permutation_in _ (sort_by_perm _ _)) in H.
  now apply (proj1 (score_docs_scores _ _ _ G)).
Qed.

Lemma StronglySorted_weaken {A} (P : A -> Prop) (R R' : A -> A -> Prop) l :
  (forall a b, P a -> P b -> R a b -> R' a b) ->
  Forall P l -> StronglySorted R l -> StronglySorted R' l.
Proof.
  intros H HP HS. induction HS as [|a l HS IH Ha]; [constructor|].
  inversion HP as [|? ? Pa Pl]; subst. constructor; [now apply IH|].
  rewrite Forall_forall in Ha, Pl |- *. intros b Hb.
  apply H; auto.
Qed.

Lemma ranked_perm {plat : Platform} g : Permutation (ranked g) (score_docs g).
Proof. apply sort_by_perm. Qed.

Lemma ranked_sorted {plat : Platform} g :
  Forall (fun d => is_nan (doc_score d) = false) (score_docs g) ->
  StronglySorted desc (ranked g).
Proof.
  intros H. unfold ranked.
  apply (StronglySorted_weaken (fun d => is_nan (doc_score d) = false)
           (fun a b => (- doc_score b <? - doc_score a)%float = false)).
  - intros a b Ha Hb Hab. rewrite ltb_opp in Hab. unfold desc.
    now apply ltb_false_leb.
  - now apply (Permutation_Forall (Permutation_sym (sort_by_perm _ _))).
  - apply (sort_by_sorted (fun d => (- doc_score d)%float)).
    eapply Forall_impl; [|exact H]. cbn beta. intros d Hd.
    now rewrite is_nan_opp.
Qed.

Lemma ranked_stable {plat : Platform} g s :
  filter (tied s) (ranked g) = filter (tied s) (score_docs g).
Proof.
  unfold ranked. apply sort_by_filter. unfold tied. intros x y Hx Hy.
  rewrite ltb_opp. exact (eqb_tie _ _ _ Hy Hx).
Qed.

(** Three documents with distinct scores come out in descending order. *)
Lemma ranked_three {plat : Platform} g a b c :
  Forall (fun d => is_nan (doc_score d) = false) (score_docs g) ->
  Permutation [a; b; c] (score_docs g) ->
  (doc_score b <? doc_score a)%float = true ->
  (doc_score c <? doc_score b)%float = true ->
  ranked g = [a; b; c].
Proof.
  intros Hn Hp Hab Hbc.
  pose proof (ltb_trans _ _ _ Hbc Hab) as Hac.
  pose proof (ltb_not_leb _ _ Hab) as Nab.
  pose proof (ltb_not_leb _ _ Hbc) as Nbc.
  pose proof (ltb_not_leb _ _ Hac) as Nac.
  pose proof (ranked_sorted g Hn) as Hs.
  assert (Hq : Permutation [a; b; c] (ranked g))
    by (rewrite Hp; symmetry; apply ranked_perm).
  pose proof (Permutation_length Hq) as Hl.
  destruct (ranked g) as [|x [|y [|z [|? ?]]]]; try discriminate.
  assert (Ia := Permutation_in a Hq (or_introl eq_refl)).
  assert (Ib := Permutation_in b Hq (or_intror (or_introl eq_refl))).
  assert (Ic := Permutation_in c Hq (or_intror (or_intror (or_introl eq_refl)))).
  inversion Hs as [|? ? Hs' Hx]; subst.
  inversion Hs' as [|? ? _ Hy]; subst.
  inversion Hx as [|? ? Hxy Hx']; subst. inversion Hx' as [|? ? Hxz _]; subst.
  inversion Hy as [|? ? Hyz _]; subst.
  unfold desc in *. cbn [In] in Ia, Ib, Ic.
  destruct Ia as [<-|[<-|[<-|[]]]], Ib as [<-|[<-|[<-|[]]]],
           Ic as [<-|[<-|[<-|[]]]];
    try reflexivity; try congruence;
    rewrite ?ltb_irrefl in *; discriminate.
Qed.

Lemma StronglySorted_firstn {A} (R : A -> A -> Prop) n : forall l,
  StronglySorted R l -> StronglySorted R (firstn n l).
Proof.
  induction n as [|n IH]; intros l H; [constructor|].
  destruct l as [|x l]; [constructor|]. cbn [firstn].
  inversion H as [|? ? Hs Hf]; subst. constructor; [now apply IH|].
  rewrite Forall_forall in Hf |- *. intros y Hy. apply Hf.
  now apply In_firstn in Hy.
Qed.

Lemma StronglySorted_app_r {A} (R : A -> A -> Prop) (a b : list A) :
  StronglySorted R (a ++ b) -> StronglySorted R b.
Proof.
  induction a as [|x a IH]; cbn [app]; [auto|].
  intros H. inversion H; subst. auto.
Qed.

(** In a sorted list, an element that the order does not let stand before
    another one stands after it. *)
Lemma sorted_after {A} (R : A -> A -> Prop) l x y :
  StronglySorted R l -> In x l -> In y l -> ~ R x y -> x <> y ->
  exists l1 l2 l3, l = l1 ++ y :: l2 ++ x :: l3.
Proof.
  intros Hs Hx Hy Hn Hd. apply in_split in Hx. destruct Hx as (a & b & ->).
  apply in_app_or in Hy. destruct Hy as [Hy|[Hy|Hy]].
  - apply in_split in Hy. destruct Hy as (a1 & a2 & ->).
    exists a1, a2, b. now rewrite <- app_assoc.
  - congruence.
  - apply StronglySorted_app_r in Hs. inversion Hs as [|? ? _ Hf]; subst.
    rewrite Forall_forall in Hf. elim Hn. now apply Hf.
Qed.

(** ** Claims about scoring and ranking *)

(** C2, as stated, fails where the C library's [pow] is not correctly
    rounded.  One document has 2921 hits of score [1.0]; on the observed
    platform [2921 ** 0.5] is one unit in the last place below the rounded
    square root, and the score that [search] returns is one unit in the
    last place above [(1.0 + ... + 1.0) / sqrt(2921)]. *)
Lemma C2_counterexample :
  exists r e,
    search (plat := observed) Many.inst "q" 2921 5 12000 = Some r /\
    document_scores r = [e] /\
    hit_scores Many.md (hits_of Many.inst "q" 2921) (sum_doc_id e)
    = repeat one 2921 /\
    sum_score e = 0x1.b05ec632536fbp+5%float /\
    spec_aggregate (repeat one 2921) = 0x1.b05ec632536fap+5%float /\
    (sum_score e =? spec_aggregate (repeat one 2921))%float = false.
Proof.
  eexists. eexists. split; [vm_compute; reflexivity|].
  split; [reflexivity|]. split; [vm_compute; reflexivity|].
  split; [reflexivity|]. split; vm_compute; reflexivity.
Qed.

(** C2 (amended): [search] scores every document that has a surviving hit,
    and only these; with [s_1 .. s_n] the raw scores of the surviving hits
    of a document, in the order of the hits, its score is [sum([s_1 ..
    s_n]) / (n ** 0.5)] as the platform computes it, and this is the score
    of its entry in [document_scores], whose chunk count is [n].  The
    score is the design's [(s_1 + ... + s_n) / sqrt(n)] wherever [sum]
    adds from left to right and [pow(n, 0.5)] is the correctly rounded
    square root of [n].  On every platform a document with a single hit
    is scored its raw score ([0.0] for the raw score [-0.0], the same
    number), and where [pow(2, 0.5)] is correctly rounded the document
    with the scores [0.9, 0.8] is scored [0x1.33bb9d71f593bp+0], about
    [1.202], which is more than the [0.95] of a document with this single
    score; when no score is a NaN and both documents are selected, it
    stands before that document in [top_documents]. *)
Theorem C2_aggregate_score {plat : Platform} self query top_k_chunks top_docs
  mx r :
  search self query top_k_chunks top_docs mx = Some r ->
  let hits := hits_of self query top_k_chunks in
  let ss := hit_scores (metadata self) hits in
  let float_n := fun d =>
    PrimFloat.of_uint63 (Uint63.of_Z (Z.of_nat (List.length (ss d)))) in
  let code_score := fun d =>
    (py_sum (ss d) / pow_half_of (List.length (ss d)))%float in
  (exists g, group_chunks (metadata self) hits [] = Some g /\
     (forall x, In x (score_docs g) -> ss (doc_id x) <> []) /\
     forall d, ss d <> [] ->
       exists x, In x (score_docs g) /\ doc_id x = d /\
                 doc_score x = code_score d) /\
  (forall e, In e (document_scores r) ->
     ss (sum_doc_id e) <> [] /\
     sum_score e = code_score (sum_doc_id e) /\
     num_matching_chunks e = Z.of_nat (List.length (ss (sum_doc_id e)))) /\
  (forall d, compensated_sum = false ->
     pow_half (float_n d) = PrimFloat.sqrt (float_n d) ->
     code_score d = spec_aggregate (ss d)) /\
  (forall d s, ss d = [s] ->
     code_score d = s \/ (s = neg_zero /\ code_score d = zero)) /\
  (pow_half 2 = PrimFloat.sqrt 2 ->
   forall d1 d2,
     ss d1 = [Ranking.s095] -> ss d2 = [Ranking.s090; Ranking.s080] ->
     code_score d1 = Ranking.s095 /\
     code_score d2 = 0x1.33bb9d71f593bp+0%float /\
     (code_score d1 <? code_score d2)%float = true /\
     ((forall d, ss d <> [] -> is_nan (code_score d) = false) ->
      In d1 (top_documents r) -> In d2 (top_documents r) ->
      exists l1 l2 l3, top_documents r = l1 ++ d2 :: l2 ++ d1 :: l3)).
Proof.
  intros H hits ss float_n code_score. unfold search in H.
  fold (hits_of self query top_k_chunks) in H. fold hits in H.
  assert (S1 : forall d s, ss d = [s] ->
                 code_score d = s \/ (s = neg_zero /\ code_score d = zero)).
  { intros d s E. unfold code_score. rewrite E, py_sum_single.
    cbn [List.length]. unfold pow_half_of.
    change (float_of_nat 1 =? one)%float with true. cbv iota zeta.
    rewrite div_one.
    destruct (PrimFloat.Leibniz.eqb s neg_zero) eqn:Es.
    - right. apply FloatAxioms.Leibniz.eqb_spec in Es. subst s.
      split; reflexivity.
    - left. apply add_zero_l. intros ->. vm_compute in Es. discriminate. }
  split; [|split; [|split; [|split]]].
  - unfold search_hits in H.
    destruct (group_chunks (metadata self) hits []) as [g|] eqn:G;
      [|discriminate].
    exists g. split; [reflexivity|].
    destruct (score_docs_scores _ _ _ G) as [A B]. split.
    + intros x Hx. apply (A x Hx).
    + intros d Hd. destruct (B d Hd) as (x & Hx & <-).
      exists x. split; [exact Hx|]. split; [reflexivity|].
      apply (A x Hx).
  - intros e Hin. apply search_hits_inv in H. subst r.
    cbn [document_scores] in Hin. apply in_map_iff in Hin.
    destruct Hin as (x & <- & Hx). apply selected_scores in Hx.
    destruct Hx as (Hne & Hs & Hl).
    cbn [summary sum_doc_id sum_score num_matching_chunks].
    split; [exact Hne|]. split; [exact Hs|]. now rewrite Hl.
  - intros d Hc Hp. unfold code_score, spec_aggregate. cbv zeta.
    rewrite (py_sum_plain _ Hc). f_equal. unfold pow_half_of. cbv zeta.
    unfold float_of_nat. fold (float_n d).
    destruct (float_n d =? one)%float eqn:E; [|exact Hp].
    apply eqb_one in E. rewrite E. reflexivity.
  - exact S1.
  - intros Hp d1 d2 E1 E2.
    assert (V1 : code_score d1 = Ranking.s095).
    { destruct (S1 d1 _ E1) as [V|[V _]]; [exact V|].
      vm_compute in V. discriminate. }
    assert (V2 : code_score d2 = 0x1.33bb9d71f593bp+0%float).
    { unfold code_score. rewrite E2. cbn [List.length].
      unfold pow_half_of, py_sum.
      change (float_of_nat 2 =? one)%float with false. cbv iota zeta.
      change (float_of_nat 2) with 2%float. rewrite Hp.
      destruct compensated_sum; vm_compute; reflexivity. }
    split; [exact V1|]. split; [exact V2|].
    assert (V : (code_score d1 <? code_score d2)%float = true)
      by (rewrite V1, V2; reflexivity).
    split; [exact V|]. intros Hn I1 I2.
    pose proof H as H'. unfold search_hits in H'.
    destruct (group_chunks (metadata self) hits []) as [g|] eqn:G;
      [|discriminate].
    clear H'. apply search_hits_inv in H. subst r. cbn [top_documents] in *.
    unfold selected in *. rewrite G in *.
    destruct (score_docs_scores _ _ _ G) as [A _].
    assert (Sg : StronglySorted desc (ranked g)).
    { apply ranked_sorted. apply Forall_forall. intros x Hx.
      destruct (A x Hx) as (Hne & -> & _). now apply Hn. }
    assert (Sl : StronglySorted desc (slice_to top_docs (ranked g))).
    { unfold slice_to. destruct (top_docs <? 0);
        now apply StronglySorted_firstn. }
    assert (Sc : forall x, In x (slice_to top_docs (ranked g)) ->
                   doc_score x = code_score (doc_id x)).
    { intros x Hx. apply slice_to_In in Hx.
      apply (Permutation_in _ (ranked_perm g)) in Hx.
      now destruct (A x Hx) as (_ & -> & _). }
    apply in_map_iff in I1. destruct I1 as (x1 & <- & I1).
    apply in_map_iff in I2. destruct I2 as (x2 & <- & I2).
    pose proof (Sc x1 I1) as C1. pose proof (Sc x2 I2) as C2.
    destruct (sorted_after desc _ x1 x2 Sl I1 I2) as (l1 & l2 & l3 & E).
    + unfold desc. rewrite C1, C2, (ltb_not_leb _ _ V). discriminate.
    + intros ->. rewrite ltb_irrefl in V. discriminate.
    + exists (map doc_id l1), (map doc_id l2), (map doc_id l3).
      rewrite E, map_app. cbn [map]. rewrite map_app. reflexivity.
Qed.

Lemma C2_witness :
  exists r e, search (plat := exact_libm)
      Ranking.inst "q" 30 2 12000 = Some r /\
    top_documents r = ["two"; "one"] /\
    In e (document_scores r) /\ sum_doc_id e = "two" /\
    sum_score e = spec_aggregate [Ranking.s090; Ranking.s080] /\
    sum_score e = 0x1.33bb9d71f593bp+0%float.
Proof.
  eexists. eexists. split; [vm_compute; reflexivity|].
  match goal with
  | |- top_documents ?R = _ /\ _ =>
    assert (Hr : search (plat := exact_libm) Ranking.inst "q" 30 2 12000
                 = Some R) by (vm_compute; reflexivity);
    pose proof (C2_aggregate_score (plat := exact_libm) Ranking.inst "q" 30 2
                  12000 R Hr) as T
  end.
  cbv zeta in T. destruct T as (_ & He & Hs & _ & Hx).
  split; [reflexivity|]. split; [left; reflexivity|]. split; [reflexivity|].
  split.
  - etransitivity; [apply (He _ (or_introl eq_refl))|].
    exact (Hs "two" eq_refl eq_refl).
  - etransitivity; [apply (He _ (or_introl eq_refl))|].
    exact (proj1 (proj2 (Hx eq_refl "one" "two" eq_refl eq_refl))).
Defined.

(** C7: when no aggregate score is a NaN and [top_docs] is not negative,
    the ranked documents are the aggregated documents in descending order of
    score, documents with equal scores keep the order of the aggregation
    step, and [top_documents] lists the first [top_docs] of them; with
    [top_docs = 2] and three documents of distinct scores these are the two
    best, best first. *)
Theorem C7_ranking {plat : Platform} self query top_k_chunks top_docs mx r g :
  search self query top_k_chunks top_docs mx = Some r ->
  group_chunks (metadata self) (hits_of self query top_k_chunks) [] = Some g ->
  Forall (fun d => is_nan (doc_score d) = false) (score_docs g) ->
  0 <= top_docs ->
  Permutation (ranked g) (score_docs g) /\
  StronglySorted desc (ranked g) /\
  (forall s, filter (tied s) (ranked g) = filter (tied s) (score_docs g)) /\
  top_documents r = map doc_id (firstn (Z.to_nat top_docs) (ranked g)) /\
  (top_docs = 2 ->
   forall a b c, Permutation [a; b; c] (score_docs g) ->
     (doc_score b <? doc_score a)%float = true ->
     (doc_score c <? doc_score b)%float = true ->
     top_documents r = [doc_id a; doc_id b]).
Proof.
  intros H G Hn Ht. unfold search in H.
  fold (hits_of self query top_k_chunks) in H.
  apply search_hits_inv in H. subst r. cbn [top_documents].
  assert (E : selected self (hits_of self query top_k_chunks) top_docs
              = firstn (Z.to_nat top_docs) (ranked g)).
  { unfold selected, slice_to. rewrite G.
    apply Z.ltb_ge in Ht. now rewrite Ht. }
  rewrite E. split; [apply ranked_perm|]. split; [now apply ranked_sorted|].
  split; [intros s; apply ranked_stable|]. split; [reflexivity|].
  intros -> a b c Hp Hab Hbc. now rewrite (ranked_three g a b c Hn Hp Hab Hbc).
Qed.

Lemma C7_witness :
  exists r g,
    search (plat := exact_libm) Ranking.inst "q" 30 2 12000 = Some r /\
    group_chunks Ranking.md Ranking.hits [] = Some g /\
    top_documents r = ["two"; "one"] /\
    top_documents r
    = map doc_id (firstn (Z.to_nat 2) (ranked (plat := exact_libm) g)).
Proof.
  eexists. eexists. split; [vm_compute; reflexivity|].
  split; [vm_compute; reflexivity|]. split; [reflexivity|].
  refine (proj1 (proj2 (proj2 (proj2
            (C7_ranking Ranking.inst "q" 30 2 12000 _ _ _ _ _ _))))).
  - vm_compute. reflexivity.
  - vm_compute. reflexivity.
  - vm_compute. repeat constructor.
  - lia.
Defined.

(** * Further properties of the query operation *)

(** ** When a query raises *)

Lemma group_chunks_None md hits : forall acc,
  group_chunks md hits acc = None <->
  exists s idx, In (s, idx) hits /\ Z.of_nat (List.length md) <= idx.
Proof.
  induction hits as [|[s0 i0] hits IH]; intros acc; cbn [group_chunks].
  - split; [discriminate | intros (s & idx & [] & _)].
  - destruct (i0 <? 0) eqn:E0.
    + apply Z.ltb_lt in E0. rewrite IH. split.
      * intros (s & idx & Hin & Hle). exists s, idx. split; [now right | exact Hle].
      * intros (s & idx & [[= <- <-]|Hin] & Hle); [lia|]. now exists s, idx.
    + apply Z.ltb_ge in E0.
      destruct (nth_error md (Z.to_nat i0)) as [meta|] eqn:En.
      * assert (Hlt : (Z.to_nat i0 < List.length md)%nat)
          by (apply nth_error_Some; congruence).
        rewrite IH. split.
        -- intros (s & idx & Hin & Hle). exists s, idx. split; [now right | exact Hle].
        -- intros (s & idx & [[= <- <-]|Hin] & Hle); [lia|]. now exists s, idx.
      * apply nth_error_None in En. split; [intros _|reflexivity].
        exists s0, i0. split; [now left | lia].
Qed.

(** X1: a query raises exactly when one of its hits has an index at or
    past the end of the metadata table. *)
Theorem search_raises_iff {plat : Platform}
  self query top_k_chunks top_docs mx :
  search self query top_k_chunks top_docs mx = None <->
  exists s idx, In (s, idx) (hits_of self query top_k_chunks) /\
                Z.of_nat (List.length (metadata self)) <= idx.
Proof.
  unfold search, search_hits. fold (hits_of self query top_k_chunks).
  rewrite <- (group_chunks_None (metadata self) _ []).
  destruct (group_chunks _ _ _); split; congruence.
Qed.

(** ** The shape of the result *)

Lemma NoDup_firstn {A} (n : nat) (l : list A) : NoDup l -> NoDup (firstn n l).
Proof.
  intros H. rewrite <- (firstn_skipn n l) in H.
  now apply NoDup_app_remove_r in H.
Qed.

Lemma selected_ids {plat : Platform} self hits top_docs :
  NoDup (map doc_id (selected self hits top_docs)).
Proof.
  unfold selected.
  destruct (group_chunks (metadata self) hits []) as [g|] eqn:G;
    [|constructor].
  destruct (group_chunks_spec _ _ _ _ G) as (_ & H2 & _).
  specialize (H2 (NoDup_nil _)).
  assert (Hr : NoDup (map doc_id (ranked g))).
  { apply (Permutation_NoDup
             (Permutation_map doc_id (Permutation_sym (ranked_perm g)))).
    unfold score_docs. rewrite map_map. cbn [doc_id]. exact H2. }
  unfold slice_to. destruct (top_docs <? 0);
    rewrite <- firstn_map; now apply NoDup_firstn.
Qed.

(** X2: no document is listed twice in [top_documents], and
    [document_scores] lists the same documents in the same order. *)
Theorem top_documents_distinct {plat : Platform}
  self query top_k_chunks top_docs mx r :
  search self query top_k_chunks top_docs mx = Some r ->
  NoDup (top_documents r) /\
  map sum_doc_id (document_scores r) = top_documents r.
Proof.
  intros H. unfold search in H. fold (hits_of self query top_k_chunks) in H.
  apply search_hits_inv in H. subst r. cbn [top_documents document_scores].
  split; [apply selected_ids|]. rewrite map_map. reflexivity.
Qed.

Lemma top_documents_distinct_witness :
  exists r, search (plat := exact_libm) Ranking.inst "q" 30 5 12000 = Some r /\
            NoDup (top_documents r).
Proof.
  eexists. split; [vm_compute; reflexivity|].
  apply (top_documents_distinct (plat := exact_libm)
      Ranking.inst "q" 30 5 12000).
  vm_compute. reflexivity.
Defined.

Lemma dict_append_length d k c :
  (List.length (dict_append d k c) <= S (List.length d))%nat.
Proof.
  induction d as [|[k0 cs] d IH]; cbn [dict_append List.length]; [lia|].
  destruct (String.eqb k0 k); cbn [List.length]; lia.
Qed.

Lemma total_chunks_dict_append d k c :
  total_chunks (dict_append d k c) = total_chunks d + 1.
Proof.
  induction d as [|[k0 cs] d IH]; cbn [dict_append total_chunks snd List.length];
    [lia|].
  destruct (String.eqb k0 k); cbn [total_chunks snd].
  - rewrite length_app. cbn [List.length]. lia.
  - rewrite IH. lia.
Qed.

Lemma group_chunks_count md hits : forall acc g,
  group_chunks md hits acc = Some g ->
  (List.length g <= List.length acc + List.length (valid_hits hits))%nat /\
  total_chunks g = total_chunks acc + Z.of_nat (List.length (valid_hits hits)).
Proof.
  unfold valid_hits.
  induction hits as [|[s idx] hits IH]; intros acc g;
    cbn [group_chunks filter snd].
  - intros [= <-]. cbn [List.length]. split; lia.
  - destruct (idx <? 0); cbn [negb]; [apply IH|].
    destruct (nth_error md (Z.to_nat idx)) as [meta|]; [|discriminate].
    intros H. apply IH in H. destruct H as [H1 H2].
    rewrite total_chunks_dict_append in H2.
    pose proof (dict_append_length acc (meta_doc_id meta)
                  (mkChunk (meta_chunk_index meta) idx s)).
    cbn [List.length]. split; lia.
Qed.

(** X3: there are at most [top_docs] documents in the result (for a
    [top_docs] that is not negative), and never more than valid hits. *)
Theorem top_documents_size {plat : Platform}
  self query top_k_chunks top_docs mx r :
  search self query top_k_chunks top_docs mx = Some r ->
  (List.length (top_documents r)
   <= List.length (valid_hits (hits_of self query top_k_chunks)))%nat /\
  (0 <= top_docs -> Z.of_nat (List.length (top_documents r)) <= top_docs).
Proof.
  intros H. unfold search in H. fold (hits_of self query top_k_chunks) in H.
  apply search_hits_inv in H. subst r. cbn [top_documents].
  rewrite length_map. unfold selected.
  destruct (group_chunks (metadata self) _ []) as [g|] eqn:G.
  - destruct (group_chunks_count _ _ _ _ G) as [Hl _]. cbn [List.length] in Hl.
    assert (Hr : List.length (ranked g) = List.length g).
    { rewrite (Permutation_length (ranked_perm g)). unfold score_docs.
      apply length_map. }
    unfold slice_to. split.
    + destruct (top_docs <? 0); rewrite length_firstn; lia.
    + intros Ht. apply Z.ltb_ge in Ht. rewrite Ht, length_firstn. lia.
  - cbn [List.length]. split; lia.
Qed.

Lemma top_documents_size_witness :
  exists r, search (plat := exact_libm) Ranking.inst "q" 30 2 12000 = Some r /\
            Z.of_nat (List.length (top_documents r)) <= 2.
Proof.
  eexists. split; [vm_compute; reflexivity|].
  apply (top_documents_size (plat := exact_libm) Ranking.inst "q" 30 2 12000);
    [vm_compute; reflexivity | lia].
Defined.

Lemma total_matching_perm l l' :
  Permutation l l' ->
  total_matching (map summary l) = total_matching (map summary l').
Proof.
  induction 1; cbn [map total_matching]; lia.
Qed.

Lemma total_matching_nonneg l : 0 <= total_matching (map summary l).
Proof.
  induction l as [|d l IH]; cbn [map total_matching summary num_matching_chunks];
    lia.
Qed.

Lemma total_matching_firstn n : forall l,
  total_matching (map summary (firstn n l)) <= total_matching (map summary l).
Proof.
  induction n as [|n IH]; intros [|d l]; cbn [firstn map total_matching];
    try lia.
  - pose proof (total_matching_nonneg l).
    cbn [summary num_matching_chunks]. lia.
  - specialize (IH l). lia.
Qed.

Lemma total_matching_score_docs {plat : Platform} g :
  total_matching (map summary (score_docs g)) = total_chunks g.
Proof.
  induction g as [|[k cs] g IH];
    cbn [score_docs map total_matching total_chunks summary
         num_matching_chunks matching_chunks snd fst]; [reflexivity|].
  fold (score_docs g). rewrite IH.
  now rewrite (Permutation_length (sort_by_perm _ cs)).
Qed.

(** X4: the [num_matching_chunks] of the result add up to at most the
    number of valid hits, and to exactly that number when [top_docs] is at
    least as large: every valid hit is counted for one document only. *)
Theorem matching_chunks_conservation {plat : Platform}
  self query top_k_chunks top_docs mx r :
  search self query top_k_chunks top_docs mx = Some r ->
  let n := Z.of_nat (List.length (valid_hits (hits_of self query top_k_chunks))) in
  total_matching (document_scores r) <= n /\
  (n <= top_docs -> total_matching (document_scores r) = n).
Proof.
  intros H n. unfold search in H. fold (hits_of self query top_k_chunks) in H.
  pose proof H as H'. apply search_hits_inv in H. subst r.
  cbn [document_scores]. unfold selected.
  unfold search_hits in H'.
  destruct (group_chunks (metadata self) _ []) as [g|] eqn:G; [|discriminate].
  destruct (group_chunks_count _ _ _ _ G) as [Hl Ht].
  cbn [List.length total_chunks] in Hl, Ht. fold n in Ht.
  assert (Hall : total_matching (map summary (ranked g)) = n).
  { rewrite (total_matching_perm _ _ (ranked_perm g)),
      total_matching_score_docs. lia. }
  assert (Hr : List.length (ranked g) = List.length g).
  { rewrite (Permutation_length (ranked_perm g)). unfold score_docs.
    apply length_map. }
  unfold slice_to. split.
  - destruct (top_docs <? 0); rewrite <- Hall; apply total_matching_firstn.
  - intros Hn. assert (Ht0 : (top_docs <? 0) = false) by (apply Z.ltb_ge; lia).
    rewrite Ht0, firstn_all2 by lia. exact Hall.
Qed.

Lemma matching_chunks_conservation_witness :
  exists r, search (plat := exact_libm) Ranking.inst "q" 30 5 12000 = Some r /\
            total_matching (document_scores r) = 4.
Proof.
  eexists. split; [vm_compute; reflexivity|].
  refine (proj2 (matching_chunks_conservation (plat := exact_libm)
      Ranking.inst "q" 30 5 12000 _ _) _).
  - vm_compute. reflexivity.
  - vm_compute. discriminate.
Defined.

(** ** Small budgets and the size of a section *)

Lemma appended_tiny txts mx chunks : forall dcl total,
  mx <= total + dcl + 1 -> appended txts mx chunks dcl total = [].
Proof.
  induction chunks as [|c rest IH]; intros dcl total H; cbn [appended];
    [reflexivity|].
  destruct (truthy _) eqn:Ey; [|now apply IH].
  apply truthy_len in Ey.
  destruct (_ <? mx) eqn:E; [|reflexivity]. apply Z.ltb_lt in E. lia.
Qed.

Lemma visits_tiny txts mx docs : forall total,
  mx <= 21 -> 0 <= total ->
  filter emitted (visits txts mx docs total) = [].
Proof.
  induction docs as [|d ds IH]; intros total Hm Ht; cbn [visits filter];
    [reflexivity|].
  rewrite appended_tiny
    by (rewrite len_header; pose proof (len_nonneg (doc_id d)); lia).
  unfold v_end. cbn [emitted v_texts v_start sum_len]. rewrite Z.add_0_r.
  destruct (mx <=? total); [reflexivity | now apply IH].
Qed.

(** X5: with a budget of 21 characters or fewer the context is empty: a
    header takes 20 characters and a chunk at least one, and the check is
    strict. *)
Theorem tiny_budget_empty_context {plat : Platform}
  self query top_k_chunks top_docs mx r :
  search self query top_k_chunks top_docs mx = Some r ->
  mx <= 21 ->
  context r = "" /\ context_chars r = 0.
Proof.
  intros H Hm. unfold search in H. fold (hits_of self query top_k_chunks) in H.
  apply search_hits_inv in H. subst r. cbn [context context_chars].
  unfold included, search_visits. rewrite visits_tiny by lia.
  split; reflexivity.
Qed.

Lemma tiny_budget_empty_context_witness :
  exists r, search (plat := exact_libm)
      Fixture.inst "q" 30 5 21 = Some r /\ context r = "".
Proof.
  eexists. split; [vm_compute; reflexivity|].
  apply (tiny_budget_empty_context (plat := exact_libm)
      Fixture.inst "q" 30 5 21);
    [vm_compute; reflexivity | lia].
Defined.

(** The check of the last append also pays for the newlines of the
    earlier appends. *)
Lemma appended_tight txts mx chunks : forall dcl total,
  appended txts mx chunks dcl total <> [] ->
  total + dcl + sum_len (appended txts mx chunks dcl total)
  + 2 * Z.of_nat (List.length (appended txts mx chunks dcl total)) - 2 < mx.
Proof.
  induction chunks as [|c rest IH]; intros dcl total; cbn [appended];
    [congruence|].
  destruct (truthy _); [|apply IH].
  destruct (_ <? mx) eqn:E; [|congruence]. intros _. apply Z.ltb_lt in E.
  set (t := _get_text_by_index txts (faiss_index c)) in *.
  pose proof (len_nonneg t).
  destruct (appended txts mx rest (dcl + (len t + 2)) (total + len t))
    as [|t' ts] eqn:Ea.
  - cbn [sum_len List.length]. lia.
  - specialize (IH (dcl + (len t + 2)) (total + len t)).
    rewrite Ea in IH. specialize (IH ltac:(congruence)).
    cbn [sum_len List.length] in *. lia.
Qed.

(** X6: every section of the context is at most [max_context_chars + 1]
    characters long and holds at most ten chunk texts. *)
Theorem section_size {plat : Platform} self query top_k_chunks top_docs mx r :
  search self query top_k_chunks top_docs mx = Some r ->
  let secs := included self (hits_of self query top_k_chunks) top_docs mx in
  context r = join nl (map section_of secs) /\
  forall v, In v secs ->
    len (section_of v) <= mx + 1 /\ (List.length (v_texts v) <= 10)%nat.
Proof.
  intros H secs. unfold search in H. fold (hits_of self query top_k_chunks) in H.
  apply search_hits_inv in H. subst r. cbn [context]. split; [reflexivity|].
  intros v Hv. apply filter_In in Hv. destruct Hv as [Hv He].
  unfold search_visits in Hv.
  pose proof (visits_texts _ _ _ _ _ Hv) as Ha.
  pose proof (visits_start _ _ _ _ _ Hv) as Hs.
  split.
  - rewrite len_section_of.
    pose proof (appended_tight (texts self) mx
                  (firstn 10 (matching_chunks (v_doc v)))
                  (len (header (doc_id (v_doc v)))) (v_start v)) as T.
    rewrite <- Ha in T. unfold emitted in He.
    destruct (v_texts v); [discriminate|]. specialize (T ltac:(congruence)). lia.
  - rewrite Ha. etransitivity; [apply appended_length|].
    rewrite length_firstn. lia.
Qed.

Lemma section_size_witness :
  exists r, search (plat := exact_libm) Fixture.inst "q" 30 5 25 = Some r /\
    context r = join nl (map section_of
                  (included (plat := exact_libm)
                      Fixture.inst (hits_of Fixture.inst "q" 30) 5 25)).
Proof.
  eexists. split; [vm_compute; reflexivity|].
  apply (section_size Fixture.inst "q" 30 5 25). vm_compute. reflexivity.
Defined.

(** ** Where the texts of the context come from *)

Lemma dict_append_In d k c k' cs' :
  In (k', cs') (dict_append d k c) ->
  In (k', cs') d \/
  (k' = k /\ exists cs0, cs' = cs0 ++ [c] /\ (In (k, cs0) d \/ cs0 = [])).
Proof.
  induction d as [|[k0 cs0] d IH]; cbn [dict_append In].
  - intros [[= <- <-]|[]]. right. split; [reflexivity|]. exists []. auto.
  - destruct (String.eqb k0 k) eqn:E0; cbn [In].
    + apply String.eqb_eq in E0. subst k0.
      intros [[= <- <-]|H]; [|auto].
      right. split; [reflexivity|]. exists cs0. auto.
    + intros [H|H]; [auto|]. apply IH in H.
      destruct H as [H|(-> & cs1 & -> & [H| -> ])]; [auto| |].
      * right. split; [reflexivity|]. exists cs1. auto.
      * right. split; [reflexivity|]. exists []. auto.
Qed.

Lemma group_chunks_from_hits md all hits : forall acc g,
  incl hits all ->
  group_chunks md hits acc = Some g ->
  (forall k cs c, In (k, cs) acc -> In c cs -> from_hit md all k c) ->
  forall k cs c, In (k, cs) g -> In c cs -> from_hit md all k c.
Proof.
  induction hits as [|[s idx] hits IH]; intros acc g Hi; cbn [group_chunks].
  - intros [= <-] H. exact H.
  - assert (Hi' : incl hits all) by (intros h Hh; apply Hi; now right).
    destruct (idx <? 0) eqn:E0; [now apply IH|].
    destruct (nth_error md (Z.to_nat idx)) as [meta|] eqn:En; [|discriminate].
    intros G Hacc. apply (IH _ _ Hi' G).
    intros k cs c Hin Hc. apply dict_append_In in Hin.
    destruct Hin as [Hin|(-> & cs0 & -> & Hcs)]; [now apply (Hacc k cs)|].
    apply in_app_or in Hc. destruct Hc as [Hc|[<-|[]]].
    + destruct Hcs as [Hcs| ->]; [now apply (Hacc _ cs0) | destruct Hc].
    + exists meta. cbn [score faiss_index chunk_index].
      apply Z.ltb_ge in E0. repeat split; auto. apply Hi. now left.
Qed.

Lemma appended_In txts mx chunks : forall dcl total t,
  In t (appended txts mx chunks dcl total) ->
  exists c, In c chunks /\ t = _get_text_by_index txts (faiss_index c) /\
            truthy t = true.
Proof.
  induction chunks as [|c rest IH]; intros dcl total t; cbn [appended];
    [intros []|].
  destruct (truthy _) eqn:Ey.
  - destruct (_ <? mx); [|intros []]. intros [<-|H].
    + exists c. split; [now left | auto].
    + apply IH in H. destruct H as (c' & Hc & Ht). exists c'. split; [now right | exact Ht].
  - intros H. apply IH in H. destruct H as (c' & Hc & Ht).
    exists c'. split; [now right | exact Ht].
Qed.

Lemma get_text_truthy txts idx :
  truthy (_get_text_by_index txts idx) = true ->
  0 <= idx /\
  nth_error txts (Z.to_nat idx) = Some (_get_text_by_index txts idx).
Proof.
  unfold _get_text_by_index.
  destruct ((0 <=? idx) && (idx <? Z.of_nat (List.length txts))) eqn:E;
    [|discriminate].
  apply andb_prop in E. destruct E as [E1 E2].
  apply Z.leb_le in E1. apply Z.ltb_lt in E2. intros _. split; [exact E1|].
  apply nth_error_nth'. lia.
Qed.

Lemma selected_from_hits {plat : Platform} self hits top_docs x c :
  In x (selected self hits top_docs) -> In c (matching_chunks x) ->
  from_hit (metadata self) hits (doc_id x) c.
Proof.
  unfold selected.
  destruct (group_chunks (metadata self) hits []) as [g|] eqn:G; [|intros []].
  intros H Hc. apply slice_to_In in H. unfold ranked in H.
  apply (Permutation_in _ (sort_by_perm _ _)) in H.
  unfold score_docs in H. apply in_map_iff in H.
  destruct H as ([k cs] & <- & Hin). cbn [fst snd doc_id matching_chunks] in *.
  apply (Permutation_in _ (sort_by_perm _ cs)) in Hc.
  apply (group_chunks_from_hits _ hits hits [] g (incl_refl _) G) with (cs := cs);
    auto. intros ? ? ? [].
Qed.

Lemma visits_In_docs txts mx docs total v :
  In v (visits txts mx docs total) -> In (v_doc v) docs.
Proof.
  intros H. destruct (visits_prefix txts mx docs total) as [rest E].
  rewrite E. apply in_or_app. left. now apply in_map.
Qed.

(** X7: every chunk text in a section of the context is the stored,
    non-empty text of a hit of the query, and the metadata table assigns
    this hit to the document of the section. *)
Theorem context_provenance {plat : Platform}
  self query top_k_chunks top_docs mx r :
  search self query top_k_chunks top_docs mx = Some r ->
  let hits := hits_of self query top_k_chunks in
  context r = join nl (map section_of (included self hits top_docs mx)) /\
  forall v t, In v (included self hits top_docs mx) -> In t (v_texts v) ->
    t <> "" /\
    exists s idx meta,
      In (s, idx) hits /\ 0 <= idx /\
      nth_error (metadata self) (Z.to_nat idx) = Some meta /\
      meta_doc_id meta = doc_id (v_doc v) /\
      nth_error (texts self) (Z.to_nat idx) = Some t.
Proof.
  intros H hits. unfold search in H. fold (hits_of self query top_k_chunks) in H.
  fold hits in H. apply search_hits_inv in H. subst r. cbn [context].
  split; [reflexivity|]. intros v t Hv Ht.
  apply filter_In in Hv. destruct Hv as [Hv _]. unfold search_visits in Hv.
  rewrite (visits_texts _ _ _ _ _ Hv) in Ht. apply appended_In in Ht.
  destruct Ht as (c & Hc & Et & Hy). apply In_firstn in Hc.
  apply visits_In_docs in Hv.
  pose proof (selected_from_hits _ _ _ _ _ Hv Hc) as (meta & F1 & F2 & F3 & F4 & _).
  split; [destruct t; [discriminate | congruence]|].
  rewrite Et in Hy. apply get_text_truthy in Hy. destruct Hy as [_ Hn].
  exists (score c), (faiss_index c), meta. rewrite Et. auto.
Qed.

Lemma context_provenance_witness :
  exists r, search (plat := exact_libm) Fixture.inst "q" 30 5 25 = Some r /\
    context r = join nl (map section_of
                  (included (plat := exact_libm)
                      Fixture.inst (hits_of Fixture.inst "q" 30) 5 25)).
Proof.
  eexists. split; [vm_compute; reflexivity|].
  apply (context_provenance Fixture.inst "q" 30 5 25). vm_compute. reflexivity.
Defined.

(** ** The order of the chunks of a document *)

Lemma group_chunks_records md hits : forall acc g,
  group_chunks md hits acc = Some g ->
  forall k, lookup g k = lookup acc k ++ hit_chunks md hits k.
Proof.
  induction hits as [|[s idx] hits IH]; intros acc g;
    cbn [group_chunks hit_chunks].
  - intros [= <-] k. now rewrite app_nil_r.
  - destruct (idx <? 0); [apply IH|].
    destruct (nth_error md (Z.to_nat idx)) as [meta|]; [|discriminate].
    intros H k. rewrite (IH _ _ H k), lookup_dict_append.
    destruct (String.eqb (meta_doc_id meta) k); [|reflexivity].
    now rewrite <- app_assoc.
Qed.

Lemma hit_chunks_scores md hits k :
  map score (hit_chunks md hits k) = hit_scores md hits k.
Proof.
  induction hits as [|[s idx] hits IH]; cbn [hit_chunks hit_scores];
    [reflexivity|].
  destruct (idx <? 0); [exact IH|].
  destruct (nth_error md (Z.to_nat idx)) as [meta|]; [|exact IH].
  destruct (String.eqb (meta_doc_id meta) k); [|exact IH].
  cbn [map score]. now rewrite IH.
Qed.

(** X8: the matching chunks of a selected document are the chunk records
    of its surviving hits (chunk number, position and raw score), in
    another order; when no raw score is a NaN they are in descending order
    of score, and the records with equal scores keep the order of the hits:
    for every score, the records with this score are the same list in the
    matching chunks as among the hits. *)
Theorem matching_chunks_sorted {plat : Platform}
  self query top_k_chunks top_docs x :
  let hits := hits_of self query top_k_chunks in
  let cs := hit_chunks (metadata self) hits (doc_id x) in
  In x (selected self hits top_docs) ->
  Forall (fun h => is_nan (fst h) = false) hits ->
  map score cs = hit_scores (metadata self) hits (doc_id x) /\
  Permutation (matching_chunks x) cs /\
  StronglySorted chunk_desc (matching_chunks x) /\
  forall s, filter (fun c => (score c =? s)%float) (matching_chunks x)
            = filter (fun c => (score c =? s)%float) cs.
Proof.
  intros hits cs0 Hx Hn. pose proof Hx as Hx'. unfold selected in Hx.
  destruct (group_chunks (metadata self) hits []) as [g|] eqn:G; [|destruct Hx].
  apply slice_to_In in Hx. unfold ranked in Hx.
  apply (Permutation_in _ (sort_by_perm _ _)) in Hx.
  unfold score_docs in Hx. apply in_map_iff in Hx.
  destruct Hx as ([k cs] & <- & Hin). cbn [fst snd doc_id matching_chunks] in *.
  destruct (group_chunks_spec _ _ _ _ G) as (_ & H2 & _).
  pose proof (group_chunks_records _ _ _ _ G k) as H1.
  cbn [lookup app] in H1.
  rewrite (lookup_In g k cs (H2 (NoDup_nil _)) Hin) in H1.
  fold cs0 in H1. subst cs0. rewrite <- H1.
  assert (Hc : Forall (fun c => is_nan (score c) = false) cs).
  { apply Forall_forall. intros c Hc.
    assert (F : from_hit (metadata self) hits k c).
    { apply (group_chunks_from_hits _ hits hits [] g (incl_refl _) G)
        with (cs := cs); auto. intros ? ? ? []. }
    destruct F as (meta & F1 & _). rewrite Forall_forall in Hn.
    apply (Hn _ F1). }
  split; [|split; [|split]].
  - rewrite H1. apply hit_chunks_scores.
  - apply sort_by_perm.
  - apply (StronglySorted_weaken (fun c => is_nan (score c) = false)
             (fun a b => (- score b <? - score a)%float = false)).
    + intros a b Ha Hb Hab. rewrite ltb_opp in Hab. unfold chunk_desc.
      now apply ltb_false_leb.
    + now apply (Permutation_Forall (Permutation_sym (sort_by_perm _ _))).
    + apply (sort_by_sorted (fun c => (- score c)%float)).
      eapply Forall_impl; [|exact Hc]. cbn beta. intros c Hc'.
      now rewrite is_nan_opp.
  - intros s. apply sort_by_filter.
    intros a b Ha Hb. rewrite ltb_opp. exact (eqb_tie _ _ _ Hb Ha).
Qed.

Lemma matching_chunks_sorted_witness :
  StronglySorted chunk_desc
    [mkChunk 0 0 Ranking.s090; mkChunk 1 2 Ranking.s080] /\
  Permutation [mkChunk 0 0 Ranking.s090; mkChunk 1 2 Ranking.s080]
    (hit_chunks Ranking.md (hits_of Ranking.inst "q" 30) "two").
Proof.
  assert (H := matching_chunks_sorted (plat := exact_libm) Ranking.inst "q" 30 2
            (mkDocScore "two" (aggregate (plat := exact_libm)
                [mkChunk 0 0 Ranking.s090;
                                          mkChunk 1 2 Ranking.s080])
               [mkChunk 0 0 Ranking.s090; mkChunk 1 2 Ranking.s080])).
  cbv zeta in H.
  assert (H1 : In (mkDocScore "two"
                     (aggregate (plat := exact_libm) [mkChunk 0 0 Ranking.s090;
                                 mkChunk 1 2 Ranking.s080])
                     [mkChunk 0 0 Ranking.s090; mkChunk 1 2 Ranking.s080])
                  (selected (plat := exact_libm)
                      Ranking.inst (hits_of Ranking.inst "q" 30) 2))
    by (vm_compute; left; reflexivity).
  assert (H2 : Forall (fun h => is_nan (fst h) = false)
                 (hits_of Ranking.inst "q" 30))
    by (vm_compute; repeat constructor).
  destruct (H H1 H2) as (_ & Hp & Hs & _). split; [exact Hs | exact Hp].
Defined.

(** * Properties of the benchmark driver *)

(** ** Loading the questions *)

Lemma read_rows_spec reader : forall i limit questions,
  read_rows reader i limit questions
  = option_map (app questions) (questions_from reader i limit).
Proof.
  induction reader as [|row reader IH]; intros i limit questions;
    cbn [read_rows questions_from option_map].
  - now rewrite app_nil_r.
  - destruct (limit <=? i); cbn [option_map]; [now rewrite app_nil_r|].
    unfold question_of_row.
    destruct (row_get row "problem") as [p|]; [|reflexivity].
    destruct (row_get row "answer") as [a|]; [|reflexivity].
    rewrite IH. destruct (questions_from reader (i + 1) limit);
      cbn [option_map]; [|reflexivity].
    now rewrite <- app_assoc.
Qed.

Lemma load_questions_spec reader limit :
  load_questions (Some reader) limit = questions_from reader 0 limit.
Proof.
  unfold load_questions. rewrite read_rows_spec.
  now destruct (questions_from reader 0 limit).
Qed.

Lemma questions_from_shape reader : forall i limit qs,
  questions_from reader i limit = Some qs ->
  List.length qs = Nat.min (List.length reader) (Z.to_nat (limit - i)) /\
  forall k q, nth_error qs k = Some q ->
    exists row, nth_error reader k = Some row /\
                question_of_row (i + Z.of_nat k) row = Some q.
Proof.
  induction reader as [|row reader IH]; intros i limit qs;
    cbn [questions_from].
  - intros [= <-]. split; [reflexivity|]. intros [|k] q; discriminate.
  - destruct (limit <=? i) eqn:E.
    + apply Z.leb_le in E. intros [= <-]. split.
      * cbn [List.length]. replace (Z.to_nat (limit - i)) with 0%nat by lia.
        reflexivity.
      * intros [|k] q; discriminate.
    + apply Z.leb_gt in E.
      destruct (question_of_row i row) as [q0|] eqn:Eq; [|discriminate].
      destruct (questions_from reader (i + 1) limit) as [qs'|] eqn:Er;
        [|discriminate].
      cbn [option_map]. intros [= <-].
      destruct (IH _ _ _ Er) as [Hl Hn]. split.
      * cbn [List.length]. rewrite Hl.
        replace (Z.to_nat (limit - i)) with (S (Z.to_nat (limit - (i + 1))))
          by lia.
        reflexivity.
      * intros [|k] q; cbn [nth_error].
        -- intros [= <-]. exists row. split; [reflexivity|].
           now rewrite Z.add_0_r.
        -- intros Hq. destruct (Hn k q Hq) as (row' & Hr & Hq').
           exists row'. split; [exact Hr|].
           replace (i + Z.of_nat (S k)) with (i + 1 + Z.of_nat k) by lia.
           exact Hq'.
Qed.

(** X9: when [load_questions] returns, it returns one question for each of
    the first [limit] rows, in order; question number [k] has index [k] and
    the values of row [k] under the keys [problem], [answer] and [metadata],
    whatever they are: a row too short to reach a column has the value
    [None] there, and the question gets that [None] as its answer or topic.
    The topic is the empty string only when the row has no key [metadata]
    at all, the header lacking the column. *)
Theorem load_questions_shape reader limit qs :
  load_questions (Some reader) limit = Some qs ->
  List.length qs = Nat.min (List.length reader) (Z.to_nat limit) /\
  forall k q, nth_error qs k = Some q ->
    q_index q = Z.of_nat k /\
    exists row, nth_error reader k = Some row /\
      row_get row "problem" = Some (q_question q) /\
      row_get row "answer" = Some (q_expected_answer q) /\
      q_topic q = match row_get row "metadata" with
                  | Some m => m
                  | None => ""
                  end.
Proof.
  rewrite load_questions_spec. intros H.
  apply questions_from_shape in H. destruct H as [Hl Hn].
  rewrite Z.sub_0_r in Hl. split; [exact Hl|].
  intros k q Hq. destruct (Hn k q Hq) as (row & Hr & Hq').
  unfold question_of_row in Hq'.
  destruct (row_get row "problem") as [p|] eqn:Ep; [|discriminate].
  destruct (row_get row "answer") as [a|] eqn:Ea; [|discriminate].
  injection Hq' as <-. cbn [q_index q_question q_expected_answer q_topic].
  split; [lia|]. exists row. rewrite Ep, Ea. auto.
Qed.

Lemma load_questions_shape_witness :
  exists q,
    nth_error [mkQuestion 0 "p0" "a0" "m0"; mkQuestion 1 "p1" PyNone PyNone] 1
    = Some q /\
    q_index q = 1 /\ q_expected_answer q = PyNone /\ q_topic q = PyNone.
Proof.
  eexists. split; [reflexivity|].
  destruct (proj2 (load_questions_shape [Csv.full; Csv.short] 5
                     [mkQuestion 0 "p0" "a0" "m0";
                      mkQuestion 1 "p1" PyNone PyNone] eq_refl)
              1%nat _ eq_refl) as (Hi & row & Hr & _ & Ha & Ht).
  injection Hr as <-. split; [exact Hi|]. split; reflexivity.
Defined.

Lemma questions_from_None reader : forall i limit,
  questions_from reader i limit = None <->
  exists k row, Z.of_nat k < limit - i /\ nth_error reader k = Some row /\
    (row_get row "problem" = None \/ row_get row "answer" = None).
Proof.
  induction reader as [|row reader IH]; intros i limit;
    cbn [questions_from].
  - split; [discriminate|]. intros ([|k] & row & _ & H & _); discriminate.
  - destruct (limit <=? i) eqn:E.
    + apply Z.leb_le in E. split; [discriminate|].
      intros (k & row' & Hk & _). lia.
    + apply Z.leb_gt in E.
      destruct (question_of_row i row) as [q0|] eqn:Eq.
      * assert (Hrow : row_get row "problem" <> None /\
                       row_get row "answer" <> None).
        { unfold question_of_row in Eq.
          destruct (row_get row "problem"); [|discriminate].
          destruct (row_get row "answer"); [|discriminate].
          split; discriminate. }
        destruct (questions_from reader (i + 1) limit) as [qs|] eqn:Er;
          cbn [option_map].
        -- split; [discriminate|].
           intros ([|k] & row' & Hk & Hr & Hm); cbn [nth_error] in Hr.
           ++ injection Hr as <-. tauto.
           ++ assert (C : questions_from reader (i + 1) limit = None)
                by (apply IH; exists k, row'; repeat split; auto; lia).
              congruence.
        -- split; [intros _|reflexivity].
           apply IH in Er. destruct Er as (k & row' & Hk & Hr & Hm).
           exists (S k), row'. cbn [nth_error]. repeat split; auto. lia.
      * split; [intros _|reflexivity].
        exists 0%nat, row. cbn [nth_error]. split; [lia|].
        split; [reflexivity|]. unfold question_of_row in Eq.
        destruct (row_get row "problem"); [|now left].
        destruct (row_get row "answer"); [discriminate | now right].
Qed.

(** ** The rows of a CSV file *)

Lemma row_get_set row k v k' :
  row_get (row_set row k v) k'
  = if String.eqb k k' then Some v else row_get row k'.
Proof.
  induction row as [|[k0 v0] row IH]; cbn [row_set row_get].
  - reflexivity.
  - destruct (String.eqb k0 k) eqn:E0; cbn [row_get].
    + apply String.eqb_eq in E0. subst k0.
      now destruct (String.eqb k k').
    + rewrite IH. destruct (String.eqb k k') eqn:E; [|reflexivity].
      apply String.eqb_eq in E. subst k'. now rewrite E0.
Qed.

Lemma dict_row_keys fieldnames k : forall cells d,
  row_get (dict_row fieldnames cells d) k = None <->
  ~ In k fieldnames /\ row_get d k = None.
Proof.
  induction fieldnames as [|f fs IH]; intros cells d; cbn [dict_row In].
  - tauto.
  - destruct cells as [|c cells]; rewrite IH, row_get_set;
      (destruct (String.eqb f k) eqn:E;
       [apply String.eqb_eq in E; subst f;
        split; [intros [_ H]; discriminate | intros [H _]; tauto]
       |apply String.eqb_neq in E; tauto]).
Qed.

Example DictReader_rows :
  DictReader [["problem"; "answer"; "metadata"]; ["p0"; "a0"; "m0"]; [];
              ["p1"]]
  = [Csv.full; Csv.short] /\
  DictReader [["problem"]; ["p2"; "a2"]] = [Csv.no_answer_column].
Proof. split; reflexivity. Qed.

(** X21: on the rows that [csv.DictReader] makes of a file, the keys of
    every row are the fields of the header, whatever cells the record has;
    so [load_questions] raises exactly when the header has no field
    [problem] or no field [answer], a record with cells follows it and
    [limit] is positive. *)
Theorem load_questions_csv_header fieldnames records limit :
  let reader := DictReader (fieldnames :: records) in
  (forall row k, In row reader ->
     (row_get row k = None <-> ~ In k fieldnames)) /\
  (load_questions (Some reader) limit = None <->
   (~ In "problem" fieldnames \/ ~ In "answer" fieldnames) /\
   (exists cells, In cells records /\ cells <> []) /\ 0 < limit).
Proof.
  intros reader.
  assert (K : forall row k, In row reader ->
                (row_get row k = None <-> ~ In k fieldnames)).
  { intros row k Hr. unfold reader, DictReader in Hr.
    apply in_map_iff in Hr. destruct Hr as (cells & <- & _).
    rewrite dict_row_keys. cbn [row_get]. tauto. }
  split; [exact K|].
  rewrite load_questions_spec, questions_from_None, Z.sub_0_r. split.
  - intros (k & row & Hk & Hn & Hg). apply nth_error_In in Hn.
    split; [|split; [|lia]].
    + destruct Hg as [Hg|Hg]; apply (K row _ Hn) in Hg; tauto.
    + unfold reader, DictReader in Hn. apply in_map_iff in Hn.
      destruct Hn as (cells & _ & Hc). apply filter_In in Hc.
      destruct Hc as [Hc Hb]. exists cells. split; [exact Hc|].
      intros ->. discriminate.
  - intros (Hf & (cells & Hc & Hne) & Hl).
    assert (Hr : In (dict_row fieldnames cells []) reader).
    { unfold reader, DictReader.
      apply (in_map (fun cells => dict_row fieldnames cells [])).
      apply filter_In.
      split; [exact Hc|]. destruct cells; [congruence | reflexivity]. }
    destruct reader as [|row reader'] eqn:E; [destruct Hr|].
    exists 0%nat, row. split; [lia|]. split; [reflexivity|].
    assert (Hi : In row (row :: reader')) by now left.
    destruct Hf as [Hf|Hf]; [left | right]; now apply (K row _ Hi).
Qed.

(** The short row is read without an error: its missing answer and topic
    are [None]. *)
Example load_questions_short_row :
  load_questions (Some [Csv.full; Csv.short]) 5
  = Some [mkQuestion 0 "p0" "a0" "m0"; mkQuestion 1 "p1" PyNone PyNone].
Proof. reflexivity. Qed.

(** A row without the key [answer] raises. *)
Example load_questions_missing_column :
  load_questions (Some [Csv.no_answer_column]) 5 = None.
Proof. reflexivity. Qed.

(** X10: [load_questions] on a readable file raises exactly when one of
    the first [limit] rows has no key [problem] or no key [answer], which
    is when the header lacks that column; a key whose value is [None], as
    a short row has, raises nothing.  Rows from number [limit] on are not
    looked at, and a missing [metadata] never raises. *)
Theorem load_questions_raises_iff reader limit :
  load_questions (Some reader) limit = None <->
  exists k row, Z.of_nat k < limit /\ nth_error reader k = Some row /\
    (row_get row "problem" = None \/ row_get row "answer" = None).
Proof.
  rewrite load_questions_spec, questions_from_None.
  now rewrite Z.sub_0_r.
Qed.

Lemma questions_from_firstn reader : forall i limit,
  questions_from reader i limit
  = questions_from (firstn (Z.to_nat (limit - i)) reader) i limit.
Proof.
  induction reader as [|row reader IH]; intros i limit.
  - now rewrite firstn_nil.
  - cbn [questions_from]. destruct (limit <=? i) eqn:E.
    + apply Z.leb_le in E.
      replace (Z.to_nat (limit - i)) with 0%nat by lia. reflexivity.
    + apply Z.leb_gt in E.
      replace (Z.to_nat (limit - i)) with (S (Z.to_nat (limit - (i + 1))))
        by lia.
      cbn [firstn questions_from].
      apply Z.leb_gt in E. rewrite E.
      destruct (question_of_row i row); [|reflexivity]. now rewrite <- IH.
Qed.

(** X11: the result of [load_questions] depends on the first [limit] rows
    only, and a [limit] of zero or less gives no question, whatever the
    rows are. *)
Theorem load_questions_limit reader limit :
  load_questions (Some reader) limit
  = load_questions (Some (firstn (Z.to_nat limit) reader)) limit /\
  (limit <= 0 -> load_questions (Some reader) limit = Some []).
Proof.
  rewrite !load_questions_spec. split.
  - rewrite (questions_from_firstn reader 0 limit). now rewrite Z.sub_0_r.
  - intros H. destruct reader as [|row reader]; cbn [questions_from];
      [reflexivity|].
    apply Z.leb_le in H. now rewrite H.
Qed.

Lemma load_questions_limit_witness :
  load_questions (Some [Csv.no_answer_column]) 0 = Some [].
Proof.
  apply (load_questions_limit [Csv.no_answer_column] 0). lia.
Defined.

(** ** The question loop *)

Section BenchmarkFacts.
Context {plat : Platform}
        (upper : string -> string)
        (generate_answer : pystr -> string -> exn + (string * Usage))
        (judge_call : pystr -> pystr -> string -> exn + json)
        (search_obj : TwoStageSearch).

Lemma on_error_appends st st1 q e :
  same_counts st st1 ->
  appends st (on_error st1 q e)
    (Failed (q_index q) (q_question q) (q_expected_answer q) e).
Proof.
  intros (R & C & I & N). unfold appends, on_error.
  cbn [results n_correct n_incorrect n_not_attempted].
  change (is_correct (Failed _ _ _ _)) with false.
  change (is_incorrect (Failed _ _ _ _)) with false.
  change (is_not_attempted (Failed _ _ _ _)) with true.
  unfold bump. rewrite R, C, I, N. repeat split; lia.
Qed.

Lemma on_verdict_appends st st1 q sr answer usage o v :
  same_counts st st1 ->
  appends st (on_verdict st1 q sr answer usage o v)
    (Judged (q_index q) (q_question q) (q_expected_answer q) answer v
       match obj_get o "confidence" with Some c => c | None => JInt 0 end
       match obj_get o "explanation" with Some x => x | None => JStr "" end
       (top_documents sr) (document_scores sr) (context_chars sr)
       (u_latency_ms usage) (u_total_tokens usage)).
Proof.
  intros (R & C & I & N).
  unfold appends, on_verdict, is_incorrect, is_correct, is_not_attempted.
  cbn [results n_correct n_incorrect n_not_attempted entry_verdict].
  rewrite R, C, I, N. split; [reflexivity|].
  destruct (String.eqb v "CORRECT") eqn:E1.
  - apply String.eqb_eq in E1. subst v. cbn. repeat split; lia.
  - destruct (String.eqb v "NOT_ATTEMPTED"); cbn; repeat split; lia.
Qed.

Lemma step_appends st q :
  appends st (step upper generate_answer judge_call search_obj st q)
    (entry_for upper generate_answer judge_call search_obj q).
Proof.
  assert (S0 : same_counts st st) by (repeat split).
  unfold entry_for, step.
  destruct (search search_obj (q_question q) 30 5 12000) as [sr|];
    [|now apply on_error_appends].
  destruct (generate_answer (q_question q) (context sr)) as [e|[answer usage]];
    [now apply on_error_appends|].
  cbv zeta.
  assert (S1 : same_counts st
            (mkRunState (results st) (n_correct st) (n_incorrect st)
               (n_not_attempted st)
               (total_latency st + u_latency_ms usage)%float
               (total_tokens st + u_total_tokens usage)))
    by (repeat split).
  destruct (judge_answer upper judge_call (q_question q) (q_expected_answer q)
              answer) as [e|j]; [now apply on_error_appends|].
  destruct j as [| | | | | |o]; try (now apply on_error_appends).
  destruct (obj_get o "verdict") as [[| | | |v| |]|];
    try (now apply on_error_appends); now apply on_verdict_appends.
Qed.

Lemma run_from st qs :
  let st' := fold_left (step upper generate_answer judge_call search_obj) qs st in
  let es := map (entry_for upper generate_answer judge_call search_obj) qs in
  results st' = results st ++ es /\
  n_correct st' = n_correct st + count_if is_correct es /\
  n_incorrect st' = n_incorrect st + count_if is_incorrect es /\
  n_not_attempted st' = n_not_attempted st + count_if is_not_attempted es.
Proof.
  revert st. induction qs as [|q qs IH]; intros st; cbn [fold_left map].
  - unfold count_if. cbn. rewrite app_nil_r. repeat split; lia.
  - destruct (step_appends st q) as (R & C & I & N).
    destruct (IH (step upper generate_answer judge_call search_obj st q))
      as (R' & C' & I' & N').
    cbv zeta in *. rewrite R', C', I', N', R, C, I, N, <- app_assoc.
    unfold count_if. cbn [filter app].
    split; [reflexivity|].
    destruct (is_correct _), (is_incorrect _), (is_not_attempted _);
      cbn [bump List.length]; repeat split; lia.
Qed.

Lemma entry_for_index q :
  entry_index (entry_for upper generate_answer judge_call search_obj q)
  = q_index q.
Proof.
  unfold entry_for, step.
  destruct (search search_obj (q_question q) 30 5 12000) as [sr|];
    [|reflexivity].
  destruct (generate_answer (q_question q) (context sr)) as [e|[answer usage]];
    [reflexivity|].
  cbv zeta.
  destruct (judge_answer upper judge_call (q_question q) (q_expected_answer q)
              answer) as [e|j]; [reflexivity|].
  destruct j as [| | | | | |o]; try reflexivity.
  destruct (obj_get o "verdict") as [[| | | |v| |]|]; reflexivity.
Qed.

Lemma count_if_cons p e es :
  count_if p (e :: es) = bump (p e) + count_if p es.
Proof.
  unfold count_if. cbn [filter]. destruct (p e); cbn [bump List.length]; lia.
Qed.

Lemma verdict_partition e :
  bump (is_correct e) + bump (is_incorrect e) + bump (is_not_attempted e) = 1.
Proof.
  unfold is_incorrect. destruct (is_correct e) eqn:E1.
  - unfold is_correct in E1. apply String.eqb_eq in E1.
    unfold is_not_attempted. rewrite E1. reflexivity.
  - destruct (is_not_attempted e); reflexivity.
Qed.

Lemma count_partition es :
  count_if is_correct es + count_if is_incorrect es
  + count_if is_not_attempted es = Z.of_nat (List.length es).
Proof.
  induction es as [|e es IH]; [reflexivity|].
  rewrite !count_if_cons. pose proof (verdict_partition e).
  cbn [List.length]. lia.
Qed.

(** X12: the question loop appends one entry per question, in the order of
    the questions and with the index of its question, whether the attempt
    succeeded or raised. *)
Theorem run_results_aligned qs :
  let st := run_questions upper generate_answer judge_call search_obj qs in
  List.length (results st) = List.length qs /\
  map entry_index (results st) = map q_index qs.
Proof.
  cbv zeta. unfold run_questions.
  destruct (run_from initial qs) as (R & _). cbv zeta in R.
  rewrite R. cbn [initial results app]. split.
  - apply length_map.
  - rewrite map_map. apply map_ext. intros q. apply entry_for_index.
Qed.

(** X13: after the question loop the three counters are the numbers of
    entries whose verdict is ["CORRECT"], is neither ["CORRECT"] nor
    ["NOT_ATTEMPTED"], and is ["NOT_ATTEMPTED"] (which includes every
    attempt that raised), and they add up to the number of questions. *)
Theorem run_counters qs :
  let st := run_questions upper generate_answer judge_call search_obj qs in
  n_correct st = count_if is_correct (results st) /\
  n_incorrect st = count_if is_incorrect (results st) /\
  n_not_attempted st = count_if is_not_attempted (results st) /\
  n_correct st + n_incorrect st + n_not_attempted st
  = Z.of_nat (List.length qs).
Proof.
  cbv zeta. unfold run_questions.
  destruct (run_from initial qs) as (R & C & I & N). cbv zeta in *.
  rewrite R, C, I, N. cbn [initial results n_correct n_incorrect
                           n_not_attempted app].
  repeat split; try lia.
  rewrite !Z.add_0_l, count_partition. now rewrite length_map.
Qed.

(** X14: a question whose retrieval raises (one of its hits has an index
    at or past the end of the metadata table) is recorded as a failed
    attempt with that error, at the position of the question. *)
Theorem run_retrieval_failure qs k q s idx :
  nth_error qs k = Some q ->
  In (s, idx) (hits_of search_obj (q_question q) 30) ->
  Z.of_nat (List.length (metadata search_obj)) <= idx ->
  nth_error
    (results (run_questions upper generate_answer judge_call search_obj qs)) k
  = Some (Failed (q_index q) (q_question q) (q_expected_answer q) IndexError).
Proof.
  intros Hq Hin Hle. unfold run_questions.
  destruct (run_from initial qs) as (R & _). cbv zeta in R.
  rewrite R. cbn [initial results app]. rewrite nth_error_map, Hq.
  cbn [option_map]. f_equal. unfold entry_for, step.
  assert (E : search search_obj (q_question q) 30 5 12000 = None).
  { unfold search, search_hits. fold (hits_of search_obj (q_question q) 30).
    rewrite (proj2 (group_chunks_None (metadata search_obj)
                      (hits_of search_obj (q_question q) 30) []));
      [reflexivity|]. now exists s, idx. }
  now rewrite E.
Qed.

Lemma step_tokens st q :
  total_tokens (step upper generate_answer judge_call search_obj st q)
  = total_tokens st
    + sum_tokens [answer_usage generate_answer search_obj q].
Proof.
  unfold answer_usage, step.
  destruct (search search_obj (q_question q) 30 5 12000) as [sr|];
    [|cbn; lia].
  destruct (generate_answer (q_question q) (context sr)) as [e|[answer usage]];
    [cbn; lia|].
  cbv zeta. cbn [sum_tokens].
  destruct (judge_answer upper judge_call (q_question q) (q_expected_answer q)
              answer) as [e|j]; [cbn; lia|].
  destruct j as [| | | | | |o]; try (cbn; lia).
  destruct (obj_get o "verdict") as [[| | | |v| |]|]; cbn; lia.
Qed.

Lemma run_tokens_from qs : forall st,
  total_tokens (fold_left (step upper generate_answer judge_call search_obj) qs st)
  = total_tokens st
    + sum_tokens (map (answer_usage generate_answer search_obj) qs).
Proof.
  induction qs as [|q qs IH]; intros st; cbn [fold_left map].
  - cbn. lia.
  - rewrite IH, step_tokens. cbn [sum_tokens].
    destruct (answer_usage generate_answer search_obj q); lia.
Qed.

(** X17: the token total of the run is the sum of the tokens of every
    generated answer, also of the answers whose judging raised and whose
    question is therefore recorded as a failed attempt. *)
Theorem run_total_tokens qs :
  total_tokens (run_questions upper generate_answer judge_call search_obj qs)
  = sum_tokens (map (answer_usage generate_answer search_obj) qs) /\
  forall k q sr answer usage e,
    nth_error qs k = Some q ->
    search search_obj (q_question q) 30 5 12000 = Some sr ->
    generate_answer (q_question q) (context sr) = inr (answer, usage) ->
    judge_call (q_question q) (q_expected_answer q) answer = inl e ->
    answer_usage generate_answer search_obj q = Some usage /\
    nth_error
      (results (run_questions upper generate_answer judge_call search_obj qs)) k
    = Some (Failed (q_index q) (q_question q) (q_expected_answer q) e).
Proof.
  split.
  - unfold run_questions. rewrite run_tokens_from. cbn. lia.
  - intros k q sr answer usage e Hq Hs Hg Hj. split.
    + unfold answer_usage. now rewrite Hs, Hg.
    + unfold run_questions.
      destruct (run_from initial qs) as (R & _). cbv zeta in R.
      rewrite R. cbn [initial results app]. rewrite nth_error_map, Hq.
      cbn [option_map]. f_equal. unfold entry_for, step.
      rewrite Hs, Hg. cbv zeta. unfold judge_answer. now rewrite Hj.
Qed.

(** X16: a judged reply that carries no verdict is given the verdict
    [upper("INCORRECT")]; as upper-casing leaves ["INCORRECT"] as it is,
    the question counts as incorrect. *)
Theorem missing_verdict_incorrect q sr answer usage o :
  upper "INCORRECT" = "INCORRECT" ->
  search search_obj (q_question q) 30 5 12000 = Some sr ->
  generate_answer (q_question q) (context sr) = inr (answer, usage) ->
  judge_call (q_question q) (q_expected_answer q) answer = inr (JObj o) ->
  obj_get o "verdict" = None ->
  entry_verdict (entry_for upper generate_answer judge_call search_obj q)
  = "INCORRECT" /\
  forall st,
    n_incorrect (step upper generate_answer judge_call search_obj st q)
    = n_incorrect st + 1.
Proof.
  intros Hu Hs Hg Hj Hv.
  assert (E : judge_answer upper judge_call (q_question q)
                (q_expected_answer q) answer = inr (JObj o))
    by (unfold judge_answer; now rewrite Hj, Hv).
  split.
  - unfold entry_for, step. rewrite Hs, Hg. cbv zeta. rewrite E, Hv, Hu.
    reflexivity.
  - intros st. unfold step. rewrite Hs, Hg. cbv zeta. rewrite E, Hv, Hu.
    reflexivity.
Qed.
End BenchmarkFacts.

Lemma run_retrieval_failure_witness :
  nth_error
    (results
       (run_questions (plat := exact_libm)
           (fun v => v) (fun _ _ => inl (ExternalError "down"))
          (fun _ _ _ => inl (ExternalError "down"))
          (mkTwoStageSearch (mkFaissIndex 4 (fun _ _ => [(0.5%float, 3)]))
             [mkMeta "a" 0] ["x"])
          [mkQuestion 0 "who" "me" ""])) 0
  = Some (Failed 0 "who" "me" IndexError).
Proof.
  apply (run_retrieval_failure (fun v => v)
           (fun _ _ => inl (ExternalError "down"))
           (fun _ _ _ => inl (ExternalError "down"))
           (mkTwoStageSearch (mkFaissIndex 4 (fun _ _ => [(0.5%float, 3)]))
              [mkMeta "a" 0] ["x"])
           [mkQuestion 0 "who" "me" ""] 0 (mkQuestion 0 "who" "me" "")
           0.5%float 3).
  - reflexivity.
  - left. reflexivity.
  - vm_compute. discriminate.
Defined.


Lemma questions_from_nil reader limit :
  questions_from reader 0 limit = Some [] <-> reader = [] \/ limit <= 0.
Proof.
  destruct reader as [|row reader]; cbn [questions_from].
  - split; [now left | reflexivity].
  - destruct (limit <=? 0) eqn:E.
    + apply Z.leb_le in E. split; [now right | reflexivity].
    + apply Z.leb_gt in E.
      destruct (question_of_row 0 row) as [q|].
      * destruct (questions_from reader (0 + 1) limit); cbn [option_map];
          (split; [discriminate | intros [H|H]; [discriminate | lia]]).
      * split; [discriminate | intros [H|H]; [discriminate | lia]].
Qed.

(** X15: [run_benchmark] raises exactly when one of the three files of
    the index or the questions file cannot be read, when one of the first
    [num_questions] rows of the file has no key [problem] or no key
    [answer] (the header lacks the column; a row that is merely short has
    the key, with the value [None], and raises nothing), or when there is no
    question to run, the file having no row or [num_questions] being zero or
    less (the metrics then divide by zero); so it raises for every
    [num_questions] of zero or less. *)
Theorem run_benchmark_raises_iff {plat : Platform}
  upper generate_answer judge_call d file n :
  (run_benchmark upper generate_answer judge_call d file n = None <->
   (index_faiss d = None \/ metadata_pkl d = None \/ texts_pkl d = None) \/
   file = None \/
   exists reader, file = Some reader /\
     ((exists k row, Z.of_nat k < n /\ nth_error reader k = Some row /\
         (row_get row "problem" = None \/ row_get row "answer" = None)) \/
      reader = [] \/ n <= 0)) /\
  (n <= 0 -> run_benchmark upper generate_answer judge_call d file n = None).
Proof.
  assert (M : forall st (qs : list Question),
            compute_metrics st (Z.of_nat (List.length qs)) = None <-> qs = []).
  { intros st qs. unfold compute_metrics. destruct qs as [|q qs].
    - cbn. tauto.
    - destruct (Z.of_nat (List.length (q :: qs)) =? 0) eqn:E.
      + apply Z.eqb_eq in E. cbn [List.length] in E. lia.
      + split; discriminate. }
  assert (A : run_benchmark upper generate_answer judge_call d file n = None <->
              _load d = None \/ load_questions file n = None \/
              load_questions file n = Some []).
  { unfold run_benchmark. destruct (_load d) as [so|]; [|tauto].
    destruct (load_questions file n) as [qs|]; [|tauto].
    cbv zeta.
    destruct (compute_metrics _ _) as [m|] eqn:E.
    - split; [discriminate|]. intros [H|[H|H]]; try discriminate.
      injection H as ->. rewrite (proj2 (M _ []) eq_refl) in E.
      discriminate.
    - apply M in E. subst qs. tauto. }
  assert (L : _load d = None <->
              index_faiss d = None \/ metadata_pkl d = None \/
              texts_pkl d = None).
  { unfold _load.
    destruct (index_faiss d), (metadata_pkl d), (texts_pkl d);
      split; intros H; try discriminate; try tauto;
      destruct H as [H|[H|H]]; discriminate. }
  assert (B : run_benchmark upper generate_answer judge_call d file n = None <->
   (index_faiss d = None \/ metadata_pkl d = None \/ texts_pkl d = None) \/
   file = None \/
   exists reader, file = Some reader /\
     ((exists k row, Z.of_nat k < n /\ nth_error reader k = Some row /\
         (row_get row "problem" = None \/ row_get row "answer" = None)) \/
      reader = [] \/ n <= 0)).
  { rewrite A, L. destruct file as [reader|].
    - rewrite load_questions_spec.
      pose proof (questions_from_None reader 0 n) as N.
      rewrite Z.sub_0_r in N.
      pose proof (questions_from_nil reader n) as E.
      split.
      + intros [H|[H|H]]; [now left| |].
        * right; right. exists reader. split; [reflexivity|].
          left. now apply N.
        * right; right. exists reader. split; [reflexivity|].
          right. now apply E.
      + intros [H|[H|(r & [= <-] & [H|H])]]; [now left|discriminate| |].
        * right; left. now apply N.
        * right; right. now apply E.
    - cbn [load_questions]. split; intros _; [|now right; left].
      right; left; reflexivity. }
  split; [exact B|]. intros Hn. apply B.
  destruct file as [reader|]; [|right; left; reflexivity].
  right; right. exists reader. split; [reflexivity|]. right; right. exact Hn.
Qed.

Lemma run_benchmark_raises_iff_witness :
  run_benchmark (plat := exact_libm)
      (fun v => v) (fun _ _ => inl (ExternalError "down"))
    (fun _ _ _ => inl (ExternalError "down"))
    (mkIndexDir (Some (mkFaissIndex 0 (fun _ _ => []))) (Some []) (Some []))
    (Some [Csv.full]) 0
  = None.
Proof.
  apply (run_benchmark_raises_iff (fun v => v)
           (fun _ _ => inl (ExternalError "down"))
           (fun _ _ _ => inl (ExternalError "down"))
           (mkIndexDir (Some (mkFaissIndex 0 (fun _ _ => []))) (Some [])
              (Some []))
           (Some [Csv.full]) 0).
  lia.
Defined.

(** X18: when [run_benchmark] returns, the detailed results hold one entry
    for each of the first [num_questions] rows of the file, and the three
    counts of the summary are the numbers of entries with the matching
    verdict, so that they add up to the number of entries. *)
Theorem run_benchmark_summary {plat : Platform}
  upper generate_answer judge_call d reader n m es :
  run_benchmark upper generate_answer judge_call d (Some reader) n
  = Some (m, es) ->
  List.length es = Nat.min (List.length reader) (Z.to_nat n) /\
  m_n_correct m = count_if is_correct es /\
  m_n_incorrect m = count_if is_incorrect es /\
  m_n_not_attempted m = count_if is_not_attempted es /\
  m_n_correct m + m_n_incorrect m + m_n_not_attempted m
  = Z.of_nat (List.length es).
Proof.
  unfold run_benchmark. destruct (_load d) as [so|]; [|discriminate].
  destruct (load_questions (Some reader) n) as [qs|] eqn:L; [|discriminate].
  cbv zeta. unfold compute_metrics.
  destruct (Z.of_nat (List.length qs) =? 0); [discriminate|].
  intros [= <- <-].
  cbn [m_n_correct m_n_incorrect m_n_not_attempted].
  unfold run_questions.
  destruct (run_from upper generate_answer judge_call so initial qs)
    as (R & C & I & N).
  cbv zeta in *. rewrite R, C, I, N.
  cbn [initial results n_correct n_incorrect n_not_attempted app].
  rewrite load_questions_spec in L. apply questions_from_shape in L.
  destruct L as [Lq _]. rewrite Z.sub_0_r in Lq.
  pose proof (count_partition
                (map (entry_for upper generate_answer judge_call so) qs)) as P.
  rewrite !length_map in *. repeat split; try lia.
Qed.

Lemma run_benchmark_summary_witness :
  exists m es,
    run_benchmark (plat := exact_libm)
        (fun v => v) (fun _ _ => inl (ExternalError "down"))
      (fun _ _ _ => inl (ExternalError "down"))
      (mkIndexDir (Some (mkFaissIndex 0 (fun _ _ => []))) (Some []) (Some []))
      (Some [Csv.full; Csv.no_answer_column]) 1
    = Some (m, es) /\
    m_n_not_attempted m = count_if is_not_attempted es.
Proof.
  eexists. eexists. split; [vm_compute; reflexivity|].
  refine (proj1 (proj2 (proj2 (proj2
            (run_benchmark_summary (plat := exact_libm) (fun v => v)
               (fun _ _ => inl (ExternalError "down"))
               (fun _ _ _ => inl (ExternalError "down"))
               (mkIndexDir (Some (mkFaissIndex 0 (fun _ _ => []))) (Some [])
                  (Some []))
               [Csv.full; Csv.no_answer_column]
               1 _ _ _))))).
  vm_compute. reflexivity.
Defined.

Lemma missing_verdict_incorrect_witness :
  entry_verdict
    (entry_for (plat := exact_libm) (fun v => v)
       (fun _ _ => inr ("yes", mkUsage 10 2 12 1.5%float))
       (fun _ _ _ => inr (JObj [("confidence", JInt 1)]))
       Fixture.inst (mkQuestion 0 "who" "me" ""))
  = "INCORRECT".
Proof.
  refine (proj1 (missing_verdict_incorrect (fun v => v)
            (fun _ _ => inr ("yes", mkUsage 10 2 12 1.5%float))
            (fun _ _ _ => inr (JObj [("confidence", JInt 1)]))
            Fixture.inst (mkQuestion 0 "who" "me" "") _ "yes"
            (mkUsage 10 2 12 1.5%float) [("confidence", JInt 1)] _ _ _ _ _)).
  - reflexivity.
  - vm_compute. reflexivity.
  - reflexivity.
  - reflexivity.
  - reflexivity.
Defined.

Lemma run_total_tokens_witness :
  total_tokens
    (run_questions (plat := exact_libm) (fun v => v)
       (fun _ _ => inr ("yes", mkUsage 10 2 12 1.5%float))
       (fun _ _ _ => inl (ExternalError "down"))
       Fixture.inst [mkQuestion 0 "who" "me" ""; mkQuestion 1 "why" "so" ""])
  = 24 /\
  nth_error
    (results
       (run_questions (plat := exact_libm) (fun v => v)
          (fun _ _ => inr ("yes", mkUsage 10 2 12 1.5%float))
          (fun _ _ _ => inl (ExternalError "down"))
          Fixture.inst [mkQuestion 0 "who" "me" ""; mkQuestion 1 "why" "so" ""]))
    1
  = Some (Failed 1 "why" "so" (ExternalError "down")).
Proof.
  pose proof (run_total_tokens (plat := exact_libm) (fun v => v)
                (fun _ _ => inr ("yes", mkUsage 10 2 12 1.5%float))
                (fun _ _ _ => inl (ExternalError "down"))
                Fixture.inst
                [mkQuestion 0 "who" "me" ""; mkQuestion 1 "why" "so" ""])
    as [T F].
  split.
  - rewrite T. reflexivity.
  - refine (proj2 (F 1%nat (mkQuestion 1 "why" "so" "") _ "yes"
                     (mkUsage 10 2 12 1.5%float) (ExternalError "down")
                     _ _ _ _)).
    + reflexivity.
    + vm_compute. reflexivity.
    + reflexivity.
    + reflexivity.
Defined.

(** ** The metrics *)

(** Subtracting [0.0] changes nothing. *)
Lemma sub_zero_r (x : float) : (x - zero)%float = x.
Proof.
  apply Prim2SF_inj. rewrite FloatAxioms.sub_spec.
  change (Prim2SF zero) with (S754_zero false).
  destruct (Prim2SF x) as [[|]|[|]| |s m e]; reflexivity.
Qed.

(** X19: when no answer was judged incorrect, the quality score of the
    summary is its volume score, the share of correct answers. *)
Theorem quality_without_incorrect st n m :
  compute_metrics st n = Some m ->
  n_incorrect st = 0 ->
  quality_score m = volume_score m.
Proof.
  unfold compute_metrics. destruct (n =? 0); [discriminate|].
  intros [= <-] Hi. cbn [quality_score volume_score]. rewrite Hi.
  change (PENALTY_RATIO * float_of_Z 0)%float with zero.
  now rewrite sub_zero_r.
Qed.

Lemma quality_without_incorrect_witness :
  exists m,
    compute_metrics (mkRunState [] 3 0 1 zero 0) 4 = Some m /\
    quality_score m = volume_score m.
Proof.
  eexists. split; [reflexivity|].
  apply (quality_without_incorrect (mkRunState [] 3 0 1 zero 0) 4);
    reflexivity.
Defined.

(** ** What the judge's reply becomes *)

Lemma obj_get_set o k v : forall k',
  obj_get (obj_set o k v) k' =
  if String.eqb k k'
  then match obj_get o k with Some _ => Some v | None => None end
  else obj_get o k'.
Proof.
  induction o as [|[k0 v0] o IH]; intros k'; cbn [obj_set obj_get].
  - now destruct (String.eqb k k').
  - destruct (String.eqb k0 k) eqn:E0; cbn [obj_get].
    + apply String.eqb_eq in E0. subst k0. now destruct (String.eqb k k').
    + rewrite IH. destruct (String.eqb k k') eqn:E; [|reflexivity].
      apply String.eqb_eq in E. subst k'. now rewrite E0.
Qed.

(** X20: when retrieval and generation return and the judge's reply is an
    object whose verdict is the string [v], the question is recorded as
    judged, with the verdict upper-cased (by [judge_answer] and again by
    the loop), the confidence and the explanation of the reply (or [0] and
    the empty string), and the provenance that [search] returned. *)
Theorem judged_entry {plat : Platform}
  upper generate_answer judge_call search_obj
  q sr answer usage o v :
  search search_obj (q_question q) 30 5 12000 = Some sr ->
  generate_answer (q_question q) (context sr) = inr (answer, usage) ->
  judge_call (q_question q) (q_expected_answer q) answer = inr (JObj o) ->
  obj_get o "verdict" = Some (JStr v) ->
  entry_for upper generate_answer judge_call search_obj q
  = Judged (q_index q) (q_question q) (q_expected_answer q) answer
      (upper (upper v))
      match obj_get o "confidence" with Some c => c | None => JInt 0 end
      match obj_get o "explanation" with Some x => x | None => JStr "" end
      (top_documents sr) (document_scores sr) (context_chars sr)
      (u_latency_ms usage) (u_total_tokens usage).
Proof.
  intros Hs Hg Hj Hv. unfold entry_for, step. rewrite Hs, Hg. cbv zeta.
  unfold judge_answer. rewrite Hj, Hv.
  rewrite obj_get_set, Hv, String.eqb_refl. unfold on_verdict.
  cbn [results initial app]. rewrite !obj_get_set.
  change (String.eqb "verdict" "confidence") with false.
  change (String.eqb "verdict" "explanation") with false.
  reflexivity.
Qed.

Lemma judged_entry_witness :
  entry_verdict
    (entry_for (plat := exact_libm) (fun v => v)
       (fun _ _ => inr ("yes", mkUsage 10 2 12 1.5%float))
       (fun _ _ _ => inr (JObj [("verdict", JStr "CORRECT")]))
       Fixture.inst (mkQuestion 0 "who" "me" ""))
  = "CORRECT".
Proof.
  erewrite (judged_entry (fun v => v)
             (fun _ _ => inr ("yes", mkUsage 10 2 12 1.5%float))
             (fun _ _ _ => inr (JObj [("verdict", JStr "CORRECT")]))
             Fixture.inst (mkQuestion 0 "who" "me" "") _ "yes"
             (mkUsage 10 2 12 1.5%float) [("verdict", JStr "CORRECT")]
             "CORRECT");
    [reflexivity | vm_compute; reflexivity | reflexivity | reflexivity
     | reflexivity].
Defined.
